(** * brepdiff metrics: Frechet distance (FID) and Chamfer distance

    A shallow embedding of
      - [src/brepdiff/metrics/fid.py]
      - [src/brepdiff/utils/chamfer_distance/chamfer_distance.py]

    Python functions become Rocq functions in a small writer-and-error
    monad: the writer part records what the code prints and which external
    routines it calls (in call order), the error part carries the raised
    exception.  numpy arrays are lists (a vector) and lists of rows (a
    matrix); torch tensors carry their shape next to their data.  Scalars
    are kept abstract behind the interface [Scalar], with numpy's float64
    (IEEE binary64, Rocq's primitive floats) as the instance the code runs
    on.  Routines the repository imports from other libraries
    (scipy's [sqrtm], the feature extractor, the compiled Chamfer kernel)
    are section variables. *)

From Stdlib Require Import String Bool Arith Lia Floats QArith Qcanon List.
Import ListNotations.
Close Scope Q_scope.
Close Scope Qc_scope.

Set Implicit Arguments.

(** * Scalars *)

(** The arithmetic the two files perform on array entries. *)
Class Scalar (F : Type) : Type := {
  fzero : F;                      (* 0.0 *)
  fone : F;                       (* 1.0, the diagonal of np.eye *)
  ftwo : F;                       (* the literal 2 in [2 * tr_covmean] *)
  fadd : F -> F -> F;
  fsub : F -> F -> F;
  fmul : F -> F -> F;
  fabs : F -> F;
  fleb : F -> F -> bool;          (* x <= y *)
  fmax : F -> F -> F;             (* np.maximum *)
  fisfinite : F -> bool;          (* np.isfinite *)
  eps_default : F;                (* the default [eps=1e-6] *)
  atol_imag : F                   (* the literal [atol=1e-3] *)
}.

(** * numpy arrays *)

Section Numpy.
Context {F : Type} `{Scalar F}.

Definition vector := list F.
Definition matrix := list (list F).

(** What the caller may pass for a mean and for a covariance. *)
Inductive mean_like := MeanScalar (x : F) | MeanVector (v : vector).
Inductive cov_like :=
  CovScalar (x : F) | CovVector (v : vector) | CovMatrix (m : matrix).

Definition atleast_1d (a : mean_like) : vector :=
  match a with MeanScalar x => [x] | MeanVector v => v end.

Definition atleast_2d (a : cov_like) : matrix :=
  match a with
  | CovScalar x => [[x]]
  | CovVector v => [v]
  | CovMatrix m => m
  end.

Definition nrows (a : matrix) : nat := length a.
Definition ncols (a : matrix) : nat := length (hd [] a).

(** [.shape] of a vector and of a matrix. *)
Definition vshape (v : vector) : nat := length v.
Definition mshape (a : matrix) : nat * nat := (nrows a, ncols a).

Definition shape_eqb (s t : nat * nat) : bool :=
  (fst s =? fst t) && (snd s =? snd t).

Definition square (n : nat) (a : matrix) : Prop :=
  nrows a = n /\ Forall (fun r => length r = n) a.

(** Sequential accumulation, starting from the first element. *)
Definition np_sum (l : list F) : F :=
  match l with
  | [] => fzero
  | x :: t => fold_left fadd t x
  end.

Definition np_max (l : list F) : F :=
  match l with
  | [] => fzero
  | x :: t => fold_left fmax t x
  end.

Definition zip_with {A B C} (f : A -> B -> C) (u : list A) (v : list B) :=
  map (fun p => f (fst p) (snd p)) (combine u v).

(** [u - v] for vectors of one shape. *)
Definition vsub (u v : vector) : vector := zip_with fsub u v.

(** [u.dot(v)] for vectors. *)
Definition vdot (u v : vector) : F := np_sum (zip_with fmul u v).

Definition entry (a : matrix) (i j : nat) : F := nth j (nth i a []) fzero.

Definition column (j : nat) (a : matrix) : vector :=
  map (fun r => nth j r fzero) a.

Definition transpose (a : matrix) : matrix :=
  map (fun j => column j a) (seq 0 (ncols a)).

(** [a.dot(b)] for matrices: numpy raises when the inner sizes differ. *)
Definition dot (a b : matrix) : option matrix :=
  if ncols a =? nrows b
  then Some (map (fun r => map (fun j => vdot r (column j b))
                               (seq 0 (ncols b))) a)
  else None.

Definition diagonal (a : matrix) : vector :=
  map (fun i => entry a i i) (seq 0 (min (nrows a) (ncols a))).

Definition trace (a : matrix) : F := np_sum (diagonal a).

Definition eye (n : nat) : matrix :=
  map (fun i => map (fun j => if i =? j then fone else fzero) (seq 0 n))
      (seq 0 n).

(** [a * c] for a scalar [c]. *)
Definition mscale (a : matrix) (c : F) : matrix :=
  map (map (fun x => fmul x c)) a.

(** [a + b] for matrices of one shape. *)
Definition madd (a b : matrix) : matrix := zip_with (zip_with fadd) a b.

Definition mabs (a : matrix) : matrix := map (map fabs) a.

(** What [sqrtm] hands back: a real array or a complex one. *)
Inductive ndarray :=
| RealArray (re : matrix)
| ComplexArray (re im : matrix).

Definition iscomplexobj (c : ndarray) : bool :=
  match c with RealArray _ => false | ComplexArray _ _ => true end.

Definition real (c : ndarray) : matrix :=
  match c with RealArray re => re | ComplexArray re _ => re end.

Definition imag (c : ndarray) : matrix :=
  match c with
  | RealArray re => map (map (fun _ => fzero)) re
  | ComplexArray _ im => im
  end.

Definition all_finite_matrix (a : matrix) : bool :=
  forallb (forallb fisfinite) a.

(** [np.isfinite(c).all()]: a complex entry is finite when both parts are. *)
Definition isfinite_all (c : ndarray) : bool :=
  match c with
  | RealArray re => all_finite_matrix re
  | ComplexArray re im => all_finite_matrix re && all_finite_matrix im
  end.

(** [np.allclose(v, 0, atol=1e-3)]: with the reference value 0 the
    relative term vanishes and an entry is close when [|x| <= atol]. *)
Definition allclose_zero (v : vector) : bool :=
  forallb (fun x => fleb (fabs x) atol_imag) v.

(** [np.max(np.abs(a))]. *)
Definition max_abs (a : matrix) : F := np_max (concat (mabs a)).
End Numpy.

Arguments vector F : clear implicits.
Arguments matrix F : clear implicits.
Arguments ndarray F : clear implicits.
Arguments mean_like F : clear implicits.
Arguments cov_like F : clear implicits.

(** * Exceptions, events and the effect monad *)

Section Effects.
Context {F : Type}.

(** The exceptions the two files raise or let through. *)
Inductive exn :=
| AssertionError (msg : string)
| ValueError (msg : string) (args : list F)
| NotImplementedError (msg : string)
| RuntimeError (msg : string).

(** What a run does to the outside, in order. *)
Inductive event :=
| EvPrint (msg : string) (args : list F)
| EvSqrtm (arg : matrix F)
| EvLoadResnet (path : string) (dims : list nat) (num_classes : option nat)
| EvInceptionV3 (dims : list nat)
| EvModel (batch : list string)
| EvNpLoad (path : string)
| EvSavez (output : string) (mu : mean_like F) (sigma : cov_like F).

(** A computation: the events it produced and how it ended. *)
Definition M (A : Type) : Type := list event * (exn + A).

Definition ret {A} (a : A) : M A := ([], inr a).

Definition bind {A B} (c : M A) (k : A -> M B) : M B :=
  match c with
  | (tr, inl e) => (tr, inl e)
  | (tr, inr a) => let (tr', r) := k a in (tr ++ tr', r)
  end.

Definition raise {A} (e : exn) : M A := ([], inl e).
Definition emit (ev : event) : M unit := ([ev], inr tt).

(** [assert c, msg]. *)
Definition assert (c : bool) (msg : string) : M unit :=
  if c then ret tt else raise (AssertionError msg).

Definition events {A} (c : M A) : list event := fst c.
Definition outcome {A} (c : M A) : exn + A := snd c.

End Effects.

Arguments exn F : clear implicits.
Arguments event F : clear implicits.
Arguments M F A : clear implicits.

Declare Scope py_scope.
Delimit Scope py_scope with py.
Notation "x <- c ;; k" := (bind c (fun x => k))
  (at level 61, c at next level, right associativity) : py_scope.
Notation "c ;; k" := (bind c (fun _ => k))
  (at level 61, right associativity) : py_scope.

(** * fid.py *)

Section Fid.
Context {F : Type} `{Scalar F}.
Local Open Scope py_scope.

(** [scipy.linalg.sqrtm]: an external routine.  It returns a real or a
    complex array, or ([None]) raises a [ValueError] of its own: scipy
    validates its argument. *)
Variable sqrtm : matrix F -> option (ndarray F).

Definition msg_sqrtm : string := "scipy.linalg.sqrtm".

Definition call_sqrtm (a : matrix F) : M F (ndarray F) :=
  emit (EvSqrtm a) ;;
  match sqrtm a with
  | Some r => ret r
  | None => raise (ValueError msg_sqrtm [])
  end.

(** [a.dot(b)] inside the monad. *)
Definition np_dot (a b : matrix F) : M F (matrix F) :=
  match dot a b with
  | Some c => ret c
  | None => raise (ValueError "shapes not aligned" [])
  end.

Definition msg_means : string :=
  "Training and test mean vectors have different lengths".
Definition msg_covs : string :=
  "Training and test covariances have different dimensions".
Definition msg_singular : string :=
  "fid calculation produces singular product; adding %s to diagonal of cov estimates".
Definition msg_imag : string := "Imaginary component {}".

(** The value of the last line of [calculate_frechet_distance]. *)
Definition frechet_formula (diff : vector F) (sigma1 sigma2 covmean : matrix F) : F :=
  fsub (fadd (fadd (vdot diff diff) (trace sigma1)) (trace sigma2))
       (fmul ftwo (trace covmean)).

(** Lines 201-206: a complex result is checked and reduced to its real part. *)
Definition take_real (covmean : ndarray F) : M F (matrix F) :=
  match covmean with
  | ComplexArray re im =>
      if negb (allclose_zero (diagonal im))
      then raise (ValueError msg_imag [max_abs im])
      else ret re
  | RealArray re => ret re
  end.

(** Lines 192-199: the second attempt, on the regularised covariances. *)
Definition regularize (sigma1 sigma2 : matrix F) (eps : F)
           (covmean : ndarray F) : M F (ndarray F) :=
  if negb (isfinite_all covmean) then
    emit (EvPrint msg_singular [eps]) ;;
    let offset := mscale (eye (nrows sigma1)) eps in
    prod <- np_dot (madd sigma1 offset) (madd sigma2 offset) ;;
    call_sqrtm prod
  else ret covmean.

(** Lines 201-210: from the square root that was kept to the result. *)
Definition finish (diff : vector F) (sigma1 sigma2 : matrix F)
           (covmean : ndarray F) : M F F :=
  covmean <- take_real covmean ;;
  ret (frechet_formula diff sigma1 sigma2 covmean).

(** Lines 188-210: what runs once the two assertions have passed. *)
Definition frechet_body (mu1 : vector F) (sigma1 : matrix F)
           (mu2 : vector F) (sigma2 : matrix F) (eps : F) : M F F :=
  let diff := vsub mu1 mu2 in
  prod <- np_dot sigma1 sigma2 ;;
  covmean <- call_sqrtm prod ;;
  covmean <- regularize sigma1 sigma2 eps covmean ;;
  finish diff sigma1 sigma2 covmean.

Definition calculate_frechet_distance
           (mu1 : mean_like F) (sigma1 : cov_like F)
           (mu2 : mean_like F) (sigma2 : cov_like F) (eps : F) : M F F :=
  let mu1 := atleast_1d mu1 in
  let mu2 := atleast_1d mu2 in
  let sigma1 := atleast_2d sigma1 in
  let sigma2 := atleast_2d sigma2 in
  assert (vshape mu1 =? vshape mu2) msg_means ;;
  assert (shape_eqb (mshape sigma1) (mshape sigma2)) msg_covs ;;
  frechet_body mu1 sigma1 mu2 sigma2 eps.

(** ** The activation statistics estimator *)

(** The feature extractor, the image pipeline and numpy's reductions are
    external collaborators. *)
Variable Model : Type.
Variable image : Type.
Variable load_resnet : string -> list nat -> option nat -> Model.
Variable InceptionV3 : list nat -> Model.

(** The entries of the [TF.Compose] list.  [Normalize] carries its
    channel means and deviations in thousandths:
    mean=[0.485, 0.456, 0.406], std=[0.229, 0.224, 0.225]. *)
Inductive transform :=
| ToTensor
| Resize (size : nat)
| Normalize (mean_milli std_milli : list nat).

(** [ImagePathDataset.__getitem__]: open the file, convert to RGB, apply
    the transforms. *)
Variable getitem : list transform -> string -> image.

(** The 4-D output [model(batch)[0]]: sizes of the two spatial axes, and
    per sample and per channel the spatial map. *)
Record tensor4 := {
  size2 : nat;
  size3 : nat;
  samples : list (list (matrix F))
}.

Variable run_model : Model -> list image -> tensor4.

(** The mean of one spatial map, as [adaptive_avg_pool2d] with
    [output_size=(1, 1)] computes it. *)
Variable spatial_mean : matrix F -> F.

Variable np_mean_axis0 : matrix F -> vector F.
Variable np_cov : matrix F -> cov_like F.
Variable np_load : string -> mean_like F * cov_like F.

Definition adaptive_avg_pool2d (pred : tensor4) : tensor4 :=
  {| size2 := 1; size3 := 1;
     samples := map (map (fun ch => [[spatial_mean ch]])) (samples pred) |}.

(** [pred.squeeze(3).squeeze(2).cpu().numpy()], both axes having size 1
    where it is called: one row per sample, one column per channel. *)
Definition squeeze_3_2 (pred : tensor4) : matrix F :=
  map (map (fun ch => entry ch 0 0)) (samples pred).

(** [torch.utils.data.DataLoader(dataset, batch_size, shuffle=False,
    drop_last=False)]: the batches in order, the last one possibly
    short.  The loader refuses a batch size that is not positive. *)
Definition num_batches (n batch_size : nat) : nat :=
  (n + batch_size - 1) / batch_size.

Definition batches (files : list string) (batch_size : nat) : list (list string) :=
  map (fun i => firstn batch_size (skipn (i * batch_size) files))
      (seq 0 (num_batches (length files) batch_size)).

Definition DataLoader (files : list string) (batch_size : nat)
  : M F (list (list string)) :=
  if batch_size =? 0
  then raise (ValueError "batch_size should be a positive integer value" [])
  else ret (batches files batch_size).

(** [np.concatenate(pred_arr, axis=0)]. *)
Definition np_concatenate (pred_arr : list (matrix F)) : M F (matrix F) :=
  match pred_arr with
  | [] => raise (ValueError "need at least one array to concatenate" [])
  | _ => ret (concat pred_arr)
  end.

Definition msg_batch : string :=
  "Warning: batch size is bigger than the data size. Setting batch size to data size".

(** Lines 134-144, the body of the loop: the rows one batch adds to
    [pred_arr]. *)
Definition batch_rows (model : Model) (transforms : list transform)
           (batch : list string) : matrix F :=
  let pred := run_model model (map (getitem transforms) batch) in
  let pred :=
    if negb (size2 pred =? 1) || negb (size3 pred =? 1)
    then adaptive_avg_pool2d pred
    else pred in
  squeeze_3_2 pred.

(** The [for batch in dataloader] loop, run over the batches that
    remain; every pass is one call of the model. *)
Fixpoint activations_loop (model : Model) (transforms : list transform)
         (todo : list (list string)) (pred_arr : list (matrix F))
  : M F (list (matrix F)) :=
  match todo with
  | [] => ret pred_arr
  | batch :: rest =>
      emit (EvModel batch) ;;
      let pred := batch_rows model transforms batch in
      activations_loop model transforms rest (pred_arr ++ [pred])
  end.

(** [device], [num_workers] and [verbose] only choose where and how
    loudly the work is done; they are left out. *)
Definition get_activations (files : list string) (model : Model)
           (normalize_rgb : bool) (batch_size : nat) (target_size : nat)
  : M F (matrix F) :=
  batch_size <-
    (if length files <? batch_size
     then emit (EvPrint msg_batch []) ;; ret (length files)
     else ret batch_size) ;;
  let transforms :=
    [ToTensor; Resize target_size] ++
    (if normalize_rgb
     then [Normalize [485; 456; 406] [229; 224; 225]]
     else []) in
  dataloader <- DataLoader files batch_size ;;
  pred_arr <- activations_loop model transforms dataloader [] ;;
  np_concatenate pred_arr.

Definition default_target_size : nat := 256.

Definition calculate_activation_statistics (files : list string)
           (model : Model) (normalize_rgb : bool) (batch_size : nat)
  : M F (mean_like F * cov_like F) :=
  act <- get_activations files model normalize_rgb batch_size
                         default_target_size ;;
  let mu := MeanVector (np_mean_axis0 act) in
  let sigma := np_cov act in
  ret (mu, sigma).

Definition compute_statistics_of_paths (paths : list string) (model : Model)
           (normalize_rgb : bool) (batch_size : nat)
  : M F (mean_like F * cov_like F) :=
  calculate_activation_statistics paths model normalize_rgb batch_size.

(** ** The entry points *)

Definition construct_resnet (path : string) (dims : list nat)
           (num_classes : option nat) : M F Model :=
  emit (EvLoadResnet path dims num_classes) ;;
  ret (load_resnet path dims num_classes).

Definition construct_inception (dims : list nat) : M F Model :=
  emit (EvInceptionV3 dims) ;; ret (InceptionV3 dims).

Definition msg_invalid (fid_type : string) : string :=
  (fid_type ++ " isn't a valid FID type")%string.

(** The [if fid_type == ... elif ... else raise] chain that opens each
    entry point.  The three copies differ only in the third argument of
    [load_resnet] for the two "cad" tags ([num_classes]: absent in
    [calculate_fid_given_paths], 40 in the other two). *)
Definition select_extractor (num_classes : option nat) (fid_type : string)
  : M F (Model * bool) :=
  if (fid_type =? "sketch")%string then
    model <- construct_resnet "data/resnet18_sketch" [3] None ;;
    ret (model, false)
  else if (fid_type =? "cad")%string then
    model <- construct_resnet "data/abc_processed/fid/resnet18_cad.ckpt"
                              [3] num_classes ;;
    ret (model, true)
  else if (fid_type =? "cad_v1")%string then
    model <- construct_resnet "data/abc_processed/fid/resnet18_cad_v1.ckpt"
                              [3] num_classes ;;
    ret (model, true)
  else if (fid_type =? "vanilla")%string then
    model <- construct_inception [3] ;;
    ret (model, false)
  else raise (NotImplementedError (msg_invalid fid_type)).

Definition calculate_fid_given_paths (paths : list string * list string)
           (batch_size : nat) (fid_type : string) : M F F :=
  mn <- select_extractor None fid_type ;;
  let (model, normalize_rgb) := mn : Model * bool in
  ms1 <- compute_statistics_of_paths (fst paths) model normalize_rgb batch_size ;;
  ms2 <- compute_statistics_of_paths (snd paths) model normalize_rgb batch_size ;;
  calculate_frechet_distance (fst ms1) (snd ms1) (fst ms2) (snd ms2)
                             eps_default.

Definition calculate_fid_given_npz_and_paths (npz_path : string)
           (paths : list string) (batch_size : nat) (fid_type : string)
  : M F F :=
  mn <- select_extractor (Some 40) fid_type ;;
  let (model, normalize_rgb) := mn : Model * bool in
  emit (EvNpLoad npz_path) ;;
  let cached_fid := np_load npz_path in
  ms2 <- compute_statistics_of_paths paths model normalize_rgb batch_size ;;
  calculate_frechet_distance (fst cached_fid) (snd cached_fid)
                             (fst ms2) (snd ms2) eps_default.

Definition save_fid_stats (paths : list string) (output : string)
           (batch_size : nat) (fid_type : string) : M F unit :=
  mn <- select_extractor (Some 40) fid_type ;;
  let (model, normalize_rgb) := mn : Model * bool in
  ms1 <- compute_statistics_of_paths paths model normalize_rgb batch_size ;;
  emit (EvPrint ("Saving FID stats to " ++ output)%string []) ;;
  emit (EvSavez output (fst ms1) (snd ms1)).
End Fid.

(** * chamfer_distance.py *)

Module Chamfer.
Section Chamfer.
Context {F : Type} `{Scalar F}.

(** A torch tensor of rank 3 or 2: its [.size()], its entries as nested
    lists, and whether it lives on a CUDA device. *)
Record tensor3 (A : Type) := {
  size3d : nat * nat * nat;
  data3d : list (list (list A));
  is_cuda3 : bool
}.

Record tensor2 (A : Type) := {
  size2d : nat * nat;
  data2d : list (list A);
  is_cuda2 : bool
}.

(** Entries of an index tensor ([dtype=torch.int]). *)
Definition int := nat.

(** The data agrees with the size. *)
Definition well_shaped {A} (t : tensor3 A) : Prop :=
  let '(b, n, k) := size3d t in
  length (data3d t) = b /\
  Forall (fun pts => length pts = n /\
                     Forall (fun p => length p = k) pts) (data3d t).

Definition zeros3 {A} (z : A) (b n k : nat) : tensor3 A :=
  {| size3d := (b, n, k);
     data3d := repeat (repeat (repeat z k) n) b;
     is_cuda3 := false |}.

Definition zeros2 {A} (z : A) (b n : nat) : tensor2 A :=
  {| size2d := (b, n); data2d := repeat (repeat z n) b; is_cuda2 := false |}.

(** [t.to(device)] for the device of another tensor. *)
Definition to3 {A} (t : tensor3 A) (cuda : bool) : tensor3 A :=
  {| size3d := size3d t; data3d := data3d t; is_cuda3 := cuda |}.
Definition to2 {A} (t : tensor2 A) (cuda : bool) : tensor2 A :=
  {| size2d := size2d t; data2d := data2d t; is_cuda2 := cuda |}.

Definition shape0 {A} (t : tensor3 A) : nat := fst (fst (size3d t)).
Definition shape1 {A} (t : tensor3 A) : nat := snd (fst (size3d t)).
Definition shape2 {A} (t : tensor3 A) : nat := snd (size3d t).

Definition msg_cat : string :=
  "Sizes of tensors must match except in dimension 2".

(** [torch.cat([s, t], dim=2)]: the sizes must agree everywhere but on
    the last axis; torch does not broadcast here. *)
Definition cat_dim2 (s t : tensor3 F) : exn F + tensor3 F :=
  if (shape0 s =? shape0 t) && (shape1 s =? shape1 t)
  then inr {| size3d := (shape0 s, shape1 s, shape2 s + shape2 t);
              data3d := zip_with (zip_with (@app F)) (data3d s) (data3d t);
              is_cuda3 := is_cuda3 s |}
  else inl (RuntimeError msg_cat).

(** The compiled kernels [cd.forward] / [cd.forward_cuda] and
    [cd.backward] / [cd.backward_cuda] (chamfer_distance.cpp and .cu):
    they overwrite the entries of the buffers they are given, whose
    sizes stay what the Python code allocated. *)
Definition forward_kernel :=
  tensor3 F -> tensor3 F ->
  tensor2 F -> tensor2 F -> tensor2 int -> tensor2 int ->
  list (list F) * list (list F) * list (list int) * list (list int).

Definition backward_kernel :=
  tensor3 F -> tensor3 F -> tensor3 F -> tensor3 F ->
  tensor2 F -> tensor2 F -> tensor2 int -> tensor2 int ->
  list (list (list F)) * list (list (list F)).

Variable cd_forward cd_forward_cuda : forward_kernel.
Variable cd_backward cd_backward_cuda : backward_kernel.

Definition fill2 {A} (t : tensor2 A) (d : list (list A)) : tensor2 A :=
  {| size2d := size2d t; data2d := d; is_cuda2 := is_cuda2 t |}.
Definition fill3 {A} (t : tensor3 A) (d : list (list (list A))) : tensor3 A :=
  {| size3d := size3d t; data3d := d; is_cuda3 := is_cuda3 t |}.

(** The autograd context: what [save_for_backward] stored. *)
Record context := {
  saved_tensors : option (tensor3 F * tensor3 F * tensor2 int * tensor2 int)
}.

Definition outputs : Type :=
  tensor2 F * tensor2 F * tensor2 int * tensor2 int.

(** Lines 24-26: the padding of 2-dimensional input. *)
Definition pad_inputs (xyz1 xyz2 : tensor3 F)
  : exn F + (tensor3 F * tensor3 F) :=
  if shape2 xyz1 =? 2 then
    let device := is_cuda3 xyz1 in
    match cat_dim2 xyz1 (to3 (zeros3 fzero 1 (shape1 xyz1) 1) device) with
    | inl e => inl e
    | inr xyz1' =>
        match cat_dim2 xyz2 (to3 (zeros3 fzero 1 (shape1 xyz2) 1) device) with
        | inl e => inl e
        | inr xyz2' => inr (xyz1', xyz2')
        end
    end
  else inr (xyz1, xyz2).

(** [ChamferDistanceFunction.forward]: the new context and the four
    returned tensors. *)
Definition forward (ctx : context) (xyz1 xyz2 : tensor3 F)
  : exn F + (context * outputs) :=
  let device := is_cuda3 xyz1 in
  match pad_inputs xyz1 xyz2 with
  | inl e => inl e
  | inr (xyz1, xyz2) =>
      let batchsize := shape0 xyz1 in
      let n := shape1 xyz1 in
      let m := shape1 xyz2 in
      let dist1 := zeros2 fzero batchsize n in
      let dist2 := zeros2 fzero batchsize m in
      let idx1 := zeros2 (0 : int) batchsize n in
      let idx2 := zeros2 (0 : int) batchsize m in
      let '(dist1, dist2, idx1, idx2) :=
        if negb (is_cuda3 xyz1) then
          let '(d1, d2, i1, i2) :=
            cd_forward xyz1 xyz2 dist1 dist2 idx1 idx2 in
          (fill2 dist1 d1, fill2 dist2 d2, fill2 idx1 i1, fill2 idx2 i2)
        else
          let dist1 := to2 dist1 device in
          let dist2 := to2 dist2 device in
          let idx1 := to2 idx1 device in
          let idx2 := to2 idx2 device in
          let '(d1, d2, i1, i2) :=
            cd_forward_cuda xyz1 xyz2 dist1 dist2 idx1 idx2 in
          (fill2 dist1 d1, fill2 dist2 d2, fill2 idx1 i1, fill2 idx2 i2) in
      inr ({| saved_tensors := Some (xyz1, xyz2, idx1, idx2) |},
           (dist1, dist2, idx1, idx2))
  end.

(** [ChamferDistanceFunction.backward]; reading [ctx.saved_tensors]
    before any forward pass stored them is an error. *)
Definition backward (ctx : context) (graddist1 graddist2 : tensor2 F)
  : exn F + (tensor3 F * tensor3 F) :=
  match saved_tensors ctx with
  | None => inl (RuntimeError "no tensors saved for backward")
  | Some (xyz1, xyz2, idx1, idx2) =>
      let '(b1, n1, k1) := size3d xyz1 in
      let '(b2, n2, k2) := size3d xyz2 in
      let gradxyz1 := zeros3 fzero b1 n1 k1 in
      let gradxyz2 := zeros3 fzero b2 n2 k2 in
      if negb (is_cuda2 graddist1) then
        let '(g1, g2) :=
          cd_backward xyz1 xyz2 gradxyz1 gradxyz2
                      graddist1 graddist2 idx1 idx2 in
        inr (fill3 gradxyz1 g1, fill3 gradxyz2 g2)
      else
        let gradxyz1 := to3 gradxyz1 (is_cuda3 xyz1) in
        let gradxyz2 := to3 gradxyz2 (is_cuda3 xyz1) in
        let '(g1, g2) :=
          cd_backward_cuda xyz1 xyz2 gradxyz1 gradxyz2
                           graddist1 graddist2 idx1 idx2 in
        inr (fill3 gradxyz1 g1, fill3 gradxyz2 g2)
  end.

(** The 3-D embedding the specification speaks of: every point gets a
    zero third coordinate. *)
Definition embed3 (t : tensor3 F) : tensor3 F :=
  {| size3d := (shape0 t, shape1 t, 3);
     data3d := map (map (fun p => p ++ [fzero])) (data3d t);
     is_cuda3 := is_cuda3 t |}.
End Chamfer.
End Chamfer.

(** * The float64 instance *)

Module Float64.
Local Open Scope float_scope.

Definition isfinite (x : float) : bool := negb (is_nan x || is_infinity x).

(** [np.maximum]: a NaN operand wins. *)
Definition maximum (x y : float) : float :=
  if is_nan x then x else if is_nan y then y else if x <? y then y else x.

(** 1e-6 and 1e-3 rounded to binary64, as Python reads the literals. *)
Definition eps_1e_6 : float := 0x1.0c6f7a0b5ed8dp-20.
Definition atol_1e_3 : float := 0x1.0624dd2f1a9fcp-10.

#[global] Instance float64 : Scalar float := {|
  fzero := 0; fone := 1; ftwo := 2;
  fadd := PrimFloat.add; fsub := PrimFloat.sub; fmul := PrimFloat.mul;
  fabs := PrimFloat.abs;
  fleb := PrimFloat.leb;
  fmax := maximum;
  fisfinite := isfinite;
  eps_default := eps_1e_6;
  atol_imag := atol_1e_3
|}.

(** [scipy.linalg.sqrtm] on a 1x1 matrix: the principal square root of
    its entry, complex when the entry is negative; scipy raises on an
    entry that is not finite.  Other shapes are outside this model and
    answer [None]. *)
Definition sqrtm_1x1 (a : matrix float) : option (ndarray float) :=
  match a with
  | [[x]] =>
      if negb (isfinite x) then None
      else if 0 <=? x
           then Some (RealArray [[PrimFloat.sqrt x]])
           else Some (ComplexArray [[0]] [[PrimFloat.sqrt (- x)]])
  | _ => None
  end.

(** A root finder that gives up on the zero matrix, answering all NaN
    (what scipy fills its result with when it finds no root), and is
    [sqrtm_1x1] elsewhere: it drives the call into its second attempt. *)
Definition sqrtm_giving_up (a : matrix float) : option (ndarray float) :=
  match a with
  | [[x]] => if x =? 0 then Some (RealArray [[nan]]) else sqrtm_1x1 a
  | _ => None
  end.

(** [calculate_frechet_distance] on two 1-D Gaussians. *)
Definition frechet_1d (mu1 var1 mu2 var2 : float) : M float float :=
  calculate_frechet_distance sqrtm_1x1
    (MeanScalar mu1) (CovScalar var1) (MeanScalar mu2) (CovScalar var2)
    eps_default.
End Float64.

(** * The exact instance *)

(** The same code over the rationals: no rounding, nothing infinite. *)
Module Exact.
Local Open Scope Qc_scope.

Definition leb (x y : Qc) : bool := Qle_bool (this x) (this y).
Definition abs (x : Qc) : Qc := if leb 0 x then x else - x.
Definition maximum (x y : Qc) : Qc := if leb x y then y else x.

#[global] Instance rational : Scalar Qc := {|
  fzero := 0; fone := 1; ftwo := Q2Qc 2;
  fadd := Qcplus; fsub := Qcminus; fmul := Qcmult;
  fabs := abs;
  fleb := leb;
  fmax := maximum;
  fisfinite := fun _ => true;
  eps_default := Q2Qc (1 # 1000000);
  atol_imag := Q2Qc (1 # 1000)
|}.

(** A root finder for exact runs: it answers with its argument, which is
    the principal root of every idempotent matrix (the identity, a
    projection). *)
Definition sqrtm_idempotent (a : matrix Qc) : option (ndarray Qc) :=
  Some (RealArray a).

(** The 2x2 identity covariance. *)
Definition identity2 : matrix Qc := [[1; 0]; [0; 1]].

(** The returned rational, as a fraction in lowest terms. *)
Definition returned (o : exn Qc + Qc) : option Q :=
  match o with
  | inr v => Some (this v)
  | inl _ => None
  end.
End Exact.

(** * Small instances of the external collaborators, for concrete runs *)

Module Toy.
Definition Model : Type := unit.
Definition image : Type := string.

(** An extractor with one channel and a 1x1 map per image. *)
Definition run_model (_ : Model) (imgs : list image) : tensor4 (F := float) :=
  {| size2 := 1; size3 := 1;
     samples := map (fun _ => [[[1%float]]]) imgs |}.

Definition spatial_mean (ch : matrix float) : float := entry ch 0 0.

Definition get_activations :=
  get_activations (F := float) (fun _ p => p) run_model spatial_mean.
End Toy.

(** Stand-ins for the remaining collaborators, enough to run the entry
    points and the operator. *)
Module Standin.
Import Chamfer.

Definition load_resnet (_ : string) (_ : list nat) (_ : option nat)
  : Toy.Model := tt.
Definition InceptionV3 (_ : list nat) : Toy.Model := tt.
Definition np_mean_axis0 (act : matrix float) : vector float := hd [] act.
Definition np_cov (_ : matrix float) : cov_like float := CovScalar 1%float.
Definition np_load (_ : string) : mean_like float * cov_like float :=
  (MeanScalar 0%float, CovScalar 1%float).

(** Kernels that leave the buffers as they were allocated. *)
Definition forward_kernel : forward_kernel (F := float) :=
  fun _ _ dist1 dist2 idx1 idx2 =>
    (data2d dist1, data2d dist2, data2d idx1, data2d idx2).
Definition backward_kernel : backward_kernel (F := float) :=
  fun _ _ gradxyz1 gradxyz2 _ _ _ _ => (data3d gradxyz1, data3d gradxyz2).

Definition forward := forward forward_kernel forward_kernel.
Definition backward := backward backward_kernel backward_kernel.

(** One batch of two 2-D points against one batch of one 2-D point. *)
Definition cloud_a : tensor3 float :=
  {| size3d := (1, 2, 2);
     data3d := [[[0; 0]; [1; 2]]]%float;
     is_cuda3 := false |}.
Definition cloud_b : tensor3 float :=
  {| size3d := (1, 1, 2); data3d := [[[3; 4]]]%float; is_cuda3 := false |}.

(** Two batches of one 2-D point each. *)
Definition pair_a : tensor3 float :=
  {| size3d := (2, 1, 2);
     data3d := [[[0; 0]]; [[1; 1]]]%float;
     is_cuda3 := false |}.
Definition pair_b : tensor3 float :=
  {| size3d := (2, 1, 2);
     data3d := [[[0; 1]]; [[1; 0]]]%float;
     is_cuda3 := false |}.

Definition no_context : context (F := float) := {| saved_tensors := None |}.
End Standin.

(** * Vocabulary of the statements *)

Section Vocabulary.
Context {F : Type} `{Scalar F}.

(** How lines 201-210 end on the square root [r] that reached them: a
    complex [r] whose diagonal imaginary part is not within the tolerance
    is fatal and reports the largest absolute imaginary entry; any other
    [r] gives the formula on its real part. *)
Definition ends_on (diff : vector F) (sigma1 sigma2 : matrix F)
           (r : ndarray F) (o : exn F + F) : Prop :=
  (iscomplexobj r = true /\ allclose_zero (diagonal (imag r)) = false ->
   o = inl (ValueError msg_imag [max_abs (imag r)])) /\
  (iscomplexobj r = false \/ allclose_zero (diagonal (imag r)) = true ->
   o = inr (frechet_formula diff sigma1 sigma2 (real r))).

(** The transpose of a real or complex array. *)
Definition ctranspose (r : ndarray F) : ndarray F :=
  match r with
  | RealArray re => RealArray (transpose re)
  | ComplexArray re im => ComplexArray (transpose re) (transpose im)
  end.

(** Both parts of an array are [n x n]. *)
Definition csquare (n : nat) (r : ndarray F) : Prop :=
  match r with
  | RealArray re => square n re
  | ComplexArray re im => square n re /\ square n im
  end.

(** [a == a.T]. *)
Definition symmetric (a : matrix F) : Prop := transpose a = a.

(** Two runs end alike: both return the same value, or both raise. *)
Definition same_result (o1 o2 : exn F + F) : Prop :=
  match o1, o2 with
  | inr a, inr b => a = b
  | inl _, inl _ => True
  | _, _ => False
  end.

(** Two runs on swapped summaries end alike up to the order in which the
    two traces are added: both raise, or one returns
    [((d + t1) + t2) - 2 * c] and the other [((d + t2) + t1) - 2 * c],
    for one and the same [c]. *)
Definition swapped_results (d t1 t2 : F) (o1 o2 : exn F + F) : Prop :=
  match o1, o2 with
  | inr a, inr b =>
      exists c, a = fsub (fadd (fadd d t1) t2) (fmul ftwo c) /\
                b = fsub (fadd (fadd d t2) t1) (fmul ftwo c)
  | inl _, inl _ => True
  | _, _ => False
  end.

(** [np.abs(a)], entry by entry in row-major order. *)
Definition magnitudes (a : matrix F) : list F := map fabs (concat a).

(** On the values of [l], [fleb] is an order and [fmax] picks the larger
    of two: what holds of float64 values that are not NaN. *)
Definition ordered_on (l : list F) : Prop :=
  (forall a b, In a l -> In b l ->
     (fmax a b = a \/ fmax a b = b) /\
     fleb a (fmax a b) = true /\ fleb b (fmax a b) = true) /\
  (forall a b c, In a l -> In b l -> In c l ->
     fleb a b = true -> fleb b c = true -> fleb a c = true).

(** [m] is one of the values of [l] and none of them exceeds it. *)
Definition largest_of (l : list F) (m : F) : Prop :=
  In m l /\ Forall (fun x => fleb x m = true) l.

(** What the fatal end of lines 202-205 reports of the root [r] that
    reached it: the largest magnitude among all the entries of the
    imaginary part (not only those of the diagonal that was tested). *)
Definition reports_largest (r : ndarray F) (o : exn F + F) : Prop :=
  iscomplexobj r = true -> allclose_zero (diagonal (imag r)) = false ->
  exists m, o = inl (ValueError msg_imag [m]) /\
            (ordered_on (magnitudes (imag r)) ->
             largest_of (magnitudes (imag r)) m).
End Vocabulary.

(** The tags the entry points know. *)
Definition valid_fid_types : list string :=
  ["sketch"; "cad"; "cad_v1"; "vanilla"]%string.

(** More small inputs for concrete runs. *)
Module Samples.
Import Chamfer.

(** What reading an archive written from the toy extractor gives back:
    the mean row [1.] and the stand-in covariance. *)
Definition np_load (_ : string) : mean_like float * cov_like float :=
  (MeanVector [1%float], CovScalar 1%float).

(** One batch of one 3-D point. *)
Definition cloud_c : tensor3 float :=
  {| size3d := (1, 1, 3); data3d := [[[5; 6; 7]]]%float; is_cuda3 := false |}.


(** The imaginary part of a 2x2 root: its largest magnitude, 2, is off
    the diagonal. *)
Definition imaginary_part : matrix float :=
  [[0x1p-1; -2]; [0x1p-2; 1]]%float.

(** A root finder for 2x2 runs: it finds no root of a matrix whose first
    entry is 0 and answers all NaN, and elsewhere it answers a complex
    root with the imaginary part above. *)
Definition sqrtm_complex_on_retry (a : matrix float)
  : option (ndarray float) :=
  match a with
  | (x :: _) :: _ =>
      if (x =? 0)%float
      then Some (RealArray [[nan; nan]; [nan; nan]])
      else Some (ComplexArray [[1; 0]; [0; 1]]%float imaginary_part)
  | _ => None
  end.

Definition zeros2x2 : matrix float := [[0; 0]; [0; 0]]%float.
Definition identity2x2 : matrix float := [[1; 0]; [0; 1]]%float.
End Samples.

(** * Reading a trace *)

Section Traces.
Context {F : Type}.

(** The batches the model was called on, in call order. *)
Definition model_calls (evs : list (event F)) : list (list string) :=
  flat_map (fun ev => match ev with EvModel b => [b] | _ => [] end) evs.

(** The arguments [sqrtm] was called on, in call order. *)
Definition sqrtm_calls (evs : list (event F)) : list (matrix F) :=
  flat_map (fun ev => match ev with EvSqrtm a => [a] | _ => [] end) evs.

(** The extractors that were constructed. *)
Definition is_construction (ev : event F) : bool :=
  match ev with
  | EvLoadResnet _ _ _ | EvInceptionV3 _ => true
  | _ => false
  end.

(** The archives that were written. *)
Definition is_savez (ev : event F) : bool :=
  match ev with EvSavez _ _ _ => true | _ => false end.
End Traces.

(* ================================================================== *)
(** * Properties *)
(* ================================================================== *)

(** ** The effect monad *)

Section MonadFacts.
Context {F : Type}.
Local Open Scope py_scope.

Lemma bind_ret {A B} (a : A) (k : A -> M F B) : bind (ret a) k = k a.
Proof. unfold bind, ret. destruct (k a). reflexivity. Qed.

Lemma assert_true {B} msg (k : unit -> M F B) :
  bind (assert true msg) k = k tt.
Proof. unfold assert. apply bind_ret. Qed.

Lemma bind_assoc {A B C} (c : M F A) (f : A -> M F B) (g : B -> M F C) :
  bind (bind c f) g = bind c (fun x => bind (f x) g).
Proof.
  destruct c as [tr [e | a]]; simpl; [reflexivity |].
  destruct (f a) as [tr' [e' | b]]; simpl; [reflexivity |].
  destruct (g b). rewrite app_assoc. reflexivity.
Qed.

End MonadFacts.

(** ** Shapes *)

Section ShapeFacts.
Context {F : Type}.

Lemma shape_eqb_eq (s t : nat * nat) : shape_eqb s t = true <-> s = t.
Proof.
  destruct s as [a b], t as [c d]; unfold shape_eqb; simpl.
  rewrite andb_true_iff, !Nat.eqb_eq. split.
  - intros [-> ->]; reflexivity.
  - intros E; inversion E; auto.
Qed.

Lemma shape_eqb_neq (s t : nat * nat) : shape_eqb s t = false <-> s <> t.
Proof.
  rewrite <- shape_eqb_eq. destruct (shape_eqb s t); split; congruence.
Qed.

Lemma square_ncols n (a : matrix F) : square n a -> ncols a = n.
Proof.
  intros [Hr Hc]. unfold ncols, nrows in *. destruct a as [| r a]; simpl in *.
  - congruence.
  - inversion Hc; assumption.
Qed.

Lemma square_mshape n (a : matrix F) : square n a -> mshape a = (n, n).
Proof.
  intros Hs. unfold mshape. rewrite (square_ncols Hs). destruct Hs as [-> _].
  reflexivity.
Qed.

End ShapeFacts.

(** ** The precondition checks of [calculate_frechet_distance] *)

Section FrechetChecks.
Context {F : Type} `{Scalar F}.
Variable sqrtm : matrix F -> option (ndarray F).

Lemma dot_square n (a b : matrix F) :
  square n a -> square n b -> exists c, dot a b = Some c.
Proof.
  intros Ha Hb. unfold dot. rewrite (square_ncols Ha).
  destruct Hb as [-> _]. rewrite Nat.eqb_refl. eauto.
Qed.

(** The tail of the function raises nothing but [ValueError]. *)
Lemma frechet_body_no_assertion mu1 sigma1 mu2 sigma2 eps msg :
  outcome (frechet_body sqrtm mu1 sigma1 mu2 sigma2 eps)
    <> inl (AssertionError msg).
Proof.
  unfold frechet_body, np_dot, call_sqrtm, regularize, finish, take_real,
    np_dot, call_sqrtm.
  destruct (dot sigma1 sigma2) as [prod |]; simpl; [| congruence].
  destruct (sqrtm prod) as [r |]; simpl; [| congruence].
  destruct (isfinite_all r); simpl.
  - destruct r as [re | re im]; simpl; [congruence |].
    destruct (allclose_zero (diagonal im)); simpl; congruence.
  - destruct (dot _ _) as [prod2 |]; simpl; [| congruence].
    destruct (sqrtm prod2) as [r2 |]; simpl; [| congruence].
    destruct r2 as [re | re im]; simpl; [congruence |].
    destruct (allclose_zero (diagonal im)); simpl; congruence.
Qed.

Lemma frechet_body_first_event mu1 sigma1 mu2 sigma2 eps prod :
  dot sigma1 sigma2 = Some prod ->
  hd_error (events (frechet_body sqrtm mu1 sigma1 mu2 sigma2 eps))
    = Some (EvSqrtm prod).
Proof.
  intros Hd. unfold frechet_body, np_dot. rewrite Hd, bind_ret.
  unfold call_sqrtm. simpl.
  destruct (sqrtm prod) as [r |]; simpl; [| reflexivity].
  destruct (bind (regularize sqrtm sigma1 sigma2 eps r) _); reflexivity.
Qed.

(** C6: when the mean shapes differ, or the covariance shapes differ,
    the call ends in the matching [AssertionError], and nothing has
    been computed by then: no event was produced, so no square root
    was asked for and nothing was printed. *)
Theorem frechet_mismatch_asserts (mu1 : mean_like F) (sigma1 : cov_like F)
        (mu2 : mean_like F) (sigma2 : cov_like F) (eps : F) :
  vshape (atleast_1d mu1) <> vshape (atleast_1d mu2) \/
  mshape (atleast_2d sigma1) <> mshape (atleast_2d sigma2) ->
  calculate_frechet_distance sqrtm mu1 sigma1 mu2 sigma2 eps =
    ([], inl (AssertionError
                (if vshape (atleast_1d mu1) =? vshape (atleast_1d mu2)
                 then msg_covs else msg_means))).
Proof.
  intros Hmis. unfold calculate_frechet_distance.
  destruct (vshape (atleast_1d mu1) =? vshape (atleast_1d mu2)) eqn:Emu.
  - rewrite assert_true.
    destruct Hmis as [Hmu | Hsig].
    + apply Nat.eqb_eq in Emu. contradiction.
    + apply shape_eqb_neq in Hsig. rewrite Hsig. reflexivity.
  - reflexivity.
Qed.

(** C10: the two assertions compare mean with mean and covariance with
    covariance only.  With both means of length [D] and both
    covariances [D' x D'], [D' <> D], they pass: the call is the tail of
    the function, which starts by asking for the square root of
    [sigma1.dot(sigma2)], and no [AssertionError] comes out. *)
Theorem frechet_checks_pass_on_mean_cov_mismatch (D D' : nat)
        (mu1 mu2 : vector F) (sigma1 sigma2 : matrix F) (eps : F) :
  D' <> D ->
  length mu1 = D -> length mu2 = D ->
  square D' sigma1 -> square D' sigma2 ->
  let run := calculate_frechet_distance sqrtm
               (MeanVector mu1) (CovMatrix sigma1)
               (MeanVector mu2) (CovMatrix sigma2) eps in
  run = frechet_body sqrtm mu1 sigma1 mu2 sigma2 eps /\
  (exists prod, dot sigma1 sigma2 = Some prod /\
                hd_error (events run) = Some (EvSqrtm prod)) /\
  (forall msg, outcome run <> inl (AssertionError msg)).
Proof.
  intros Hneq Hm1 Hm2 Hs1 Hs2 run.
  assert (Erun : run = frechet_body sqrtm mu1 sigma1 mu2 sigma2 eps).
  { unfold run, calculate_frechet_distance. simpl atleast_1d. simpl atleast_2d.
    unfold vshape. rewrite Hm1, Hm2, Nat.eqb_refl, assert_true.
    rewrite (square_mshape Hs1), (square_mshape Hs2).
    replace (shape_eqb (D', D') (D', D')) with true
      by (symmetry; apply shape_eqb_eq; reflexivity).
    rewrite assert_true. reflexivity. }
  split; [exact Erun |]. rewrite Erun. split.
  - destruct (dot_square Hs1 Hs2) as [prod Hd]. exists prod. split; [exact Hd |].
    apply frechet_body_first_event; exact Hd.
  - intros msg. apply frechet_body_no_assertion.
Qed.
End FrechetChecks.

(** ** The square-root step of [calculate_frechet_distance] *)

Section ListFacts.
Context {A B C : Type}.

Lemma zip_with_length (f : A -> B -> C) (u : list A) (v : list B) :
  length (zip_with f u v) = Nat.min (length u) (length v).
Proof. unfold zip_with. rewrite length_map, length_combine. reflexivity. Qed.

Lemma zip_with_cons (f : A -> B -> C) x y u v :
  zip_with f (x :: u) (y :: v) = f x y :: zip_with f u v.
Proof. reflexivity. Qed.

Lemma zip_with_Forall (f : A -> B -> C) (P : A -> Prop) (Q : B -> Prop)
      (R : C -> Prop) (u : list A) (v : list B) :
  (forall x y, P x -> Q y -> R (f x y)) ->
  Forall P u -> Forall Q v -> Forall R (zip_with f u v).
Proof.
  intros Hf Hu. revert v. induction Hu as [| x u Hx Hu IH]; intros v Hv.
  - constructor.
  - destruct Hv as [| y v Hy Hv]; [constructor |].
    rewrite zip_with_cons. constructor; auto.
Qed.
End ListFacts.

Section SquareFacts.
Context {F : Type} `{Scalar F}.

Lemma eye_square n : square n (eye n).
Proof.
  unfold square, eye, nrows. rewrite length_map, length_seq. split; [reflexivity |].
  apply Forall_forall. intros r Hr. apply in_map_iff in Hr as [i [<- _]].
  rewrite length_map, length_seq. reflexivity.
Qed.

Lemma mscale_square n (a : matrix F) c : square n a -> square n (mscale a c).
Proof.
  intros [Hr Hc]. unfold square, mscale, nrows in *. rewrite length_map.
  split; [exact Hr |]. apply Forall_map. revert Hc. apply Forall_impl.
  intros r Hlen. rewrite length_map. exact Hlen.
Qed.

Lemma madd_square n (a b : matrix F) :
  square n a -> square n b -> square n (madd a b).
Proof.
  intros [Ha Hca] [Hb Hcb]. unfold square, madd, nrows in *.
  rewrite zip_with_length, Ha, Hb, Nat.min_id. split; [reflexivity |].
  eapply zip_with_Forall; [| exact Hca | exact Hcb].
  intros x y Hx Hy. simpl in *. rewrite zip_with_length, Hx, Hy.
  apply Nat.min_id.
Qed.

Lemma regularized_square n (a : matrix F) eps :
  square n a -> square n (madd a (mscale (eye n) eps)).
Proof.
  intros Ha. apply madd_square; [exact Ha |].
  apply mscale_square, eye_square.
Qed.
End SquareFacts.

Section FrechetRetry.
Context {F : Type} `{Scalar F}.
Variable sqrtm : matrix F -> option (ndarray F).

Lemma finish_ends_on diff sigma1 sigma2 (r : ndarray F) :
  ends_on diff sigma1 sigma2 r (outcome (finish diff sigma1 sigma2 r)).
Proof.
  unfold ends_on, finish, take_real. destruct r as [re | re im]; simpl.
  - split; [intros [E _]; discriminate | reflexivity].
  - destruct (allclose_zero (diagonal im)); simpl; split; try reflexivity.
    + intros [_ E]; discriminate.
    + intros [E | E]; discriminate.
Qed.

Lemma finish_silent diff sigma1 sigma2 (r : ndarray F) :
  events (finish diff sigma1 sigma2 r) = [].
Proof.
  unfold finish, take_real. destruct r as [re | re im]; simpl; [reflexivity |].
  destruct (allclose_zero (diagonal im)); reflexivity.
Qed.

Lemma call_sqrtm_some {B} (a : matrix F) r (k : ndarray F -> M F B) :
  sqrtm a = Some r ->
  bind (call_sqrtm sqrtm a) k = (EvSqrtm a :: events (k r), outcome (k r)).
Proof.
  intros E. unfold call_sqrtm. rewrite E. simpl. destruct (k r); reflexivity.
Qed.

Lemma call_sqrtm_none {B} (a : matrix F) (k : ndarray F -> M F B) :
  sqrtm a = None ->
  bind (call_sqrtm sqrtm a) k = ([EvSqrtm a], inl (ValueError msg_sqrtm [])).
Proof. intros E. unfold call_sqrtm. rewrite E. reflexivity. Qed.

Lemma emit_bind {B} (ev : event F) (k : unit -> M F B) :
  bind (emit ev) k = (ev :: events (k tt), outcome (k tt)).
Proof. unfold emit. simpl. destruct (k tt); reflexivity. Qed.

(** The runs of lines 188-210, case by case on what [sqrtm] answers. *)
Lemma frechet_run_cases (n : nat)
        (mu1 : mean_like F) (sigma1 : cov_like F)
        (mu2 : mean_like F) (sigma2 : cov_like F) (eps : F) :
  vshape (atleast_1d mu1) = vshape (atleast_1d mu2) ->
  square n (atleast_2d sigma1) -> square n (atleast_2d sigma2) ->
  let s1 := atleast_2d sigma1 in
  let s2 := atleast_2d sigma2 in
  let diff := vsub (atleast_1d mu1) (atleast_1d mu2) in
  let offset := mscale (eye n) eps in
  exists prod prod2,
    dot s1 s2 = Some prod /\
    dot (madd s1 offset) (madd s2 offset) = Some prod2 /\
    calculate_frechet_distance sqrtm mu1 sigma1 mu2 sigma2 eps =
      match sqrtm prod with
      | None => ([EvSqrtm prod], inl (ValueError msg_sqrtm []))
      | Some r1 =>
          if isfinite_all r1 then
            (EvSqrtm prod :: events (finish diff s1 s2 r1),
             outcome (finish diff s1 s2 r1))
          else
            match sqrtm prod2 with
            | None =>
                ([EvSqrtm prod; EvPrint msg_singular [eps]; EvSqrtm prod2],
                 inl (ValueError msg_sqrtm []))
            | Some r2 =>
                (EvSqrtm prod :: EvPrint msg_singular [eps] :: EvSqrtm prod2
                   :: events (finish diff s1 s2 r2),
                 outcome (finish diff s1 s2 r2))
            end
      end.
Proof.
  intros Hmu Hs1 Hs2. cbv zeta.
  set (s1 := atleast_2d sigma1) in *. set (s2 := atleast_2d sigma2) in *.
  set (diff := vsub (atleast_1d mu1) (atleast_1d mu2)).
  set (offset := mscale (eye n) eps).
  destruct (dot_square Hs1 Hs2) as [prod Hd].
  destruct (dot_square (regularized_square eps Hs1)
                       (regularized_square eps Hs2)) as [prod2 Hd2].
  fold offset in Hd2.
  exists prod, prod2. split; [exact Hd |]. split; [exact Hd2 |].
  assert (Erun : calculate_frechet_distance sqrtm mu1 sigma1 mu2 sigma2 eps
                 = frechet_body sqrtm (atleast_1d mu1) s1
                                (atleast_1d mu2) s2 eps).
  { unfold calculate_frechet_distance. fold s1 s2.
    rewrite Hmu, Nat.eqb_refl, assert_true.
    rewrite (square_mshape Hs1), (square_mshape Hs2).
    replace (shape_eqb (n, n) (n, n)) with true
      by (symmetry; apply shape_eqb_eq; reflexivity).
    rewrite assert_true. reflexivity. }
  rewrite Erun. unfold frechet_body, np_dot. fold diff. rewrite Hd, bind_ret.
  destruct (sqrtm prod) as [r1 |] eqn:E1.
  - rewrite (call_sqrtm_some _ E1). unfold regularize.
    destruct (isfinite_all r1) eqn:Efin; simpl negb; cbv iota.
    + rewrite bind_ret. reflexivity.
    + destruct Hs1 as [En Hrows]. rewrite En. fold offset.
      unfold np_dot. rewrite Hd2, !bind_assoc, emit_bind, bind_ret.
      cbn [events outcome fst snd].
      destruct (sqrtm prod2) as [r2 |] eqn:E2.
      * rewrite (call_sqrtm_some _ E2). reflexivity.
      * rewrite (call_sqrtm_none _ E2). reflexivity.
  - rewrite (call_sqrtm_none _ E1). reflexivity.
Qed.

(** A root that is real, or complex with a diagonal imaginary part
    within the tolerance, goes through silently. *)
Lemma finish_returns diff sigma1 sigma2 (r : ndarray F) :
  iscomplexobj r = false \/ allclose_zero (diagonal (imag r)) = true ->
  finish diff sigma1 sigma2 r
  = ([], inr (frechet_formula diff sigma1 sigma2 (real r))).
Proof.
  intros Hok.
  pose proof (finish_silent diff sigma1 sigma2 r) as Hsil.
  destruct (finish_ends_on diff sigma1 sigma2 r) as [_ Hval].
  specialize (Hval Hok).
  destruct (finish diff sigma1 sigma2 r) as [tr o]. simpl in *.
  subst. reflexivity.
Qed.

(** In the ordinary case (a finite root, real or with a negligible
    diagonal imaginary part) the call asks for one square root and
    returns the closed formula on its real part. *)
Lemma frechet_value_formula (n : nat)
      (mu1 : mean_like F) (sigma1 : cov_like F)
      (mu2 : mean_like F) (sigma2 : cov_like F) (eps : F)
      (prod : matrix F) (r : ndarray F) :
  vshape (atleast_1d mu1) = vshape (atleast_1d mu2) ->
  square n (atleast_2d sigma1) -> square n (atleast_2d sigma2) ->
  dot (atleast_2d sigma1) (atleast_2d sigma2) = Some prod ->
  sqrtm prod = Some r ->
  isfinite_all r = true ->
  iscomplexobj r = false \/ allclose_zero (diagonal (imag r)) = true ->
  let diff := vsub (atleast_1d mu1) (atleast_1d mu2) in
  calculate_frechet_distance sqrtm mu1 sigma1 mu2 sigma2 eps =
    ([EvSqrtm prod],
     inr (fsub (fadd (fadd (vdot diff diff) (trace (atleast_2d sigma1)))
                     (trace (atleast_2d sigma2)))
               (fmul ftwo (trace (real r))))).
Proof.
  intros Hmu Hs1 Hs2 Hd Hr Hfin Hre diff.
  destruct (frechet_run_cases mu1 sigma1 mu2 sigma2 eps Hmu Hs1 Hs2)
    as [prod' [prod2 [Hd' [_ Hrun]]]].
  rewrite Hd in Hd'. injection Hd' as <-.
  rewrite Hr, Hfin in Hrun. rewrite Hrun.
  fold diff. rewrite (finish_returns _ _ _ _ Hre). reflexivity.
Qed.

(** ** The number the fatal end reports *)

(** Folding [fmax] over values it orders gives their largest. *)
Lemma fold_fmax_largest (l : list F) :
  ordered_on l ->
  forall (t : list F) (x : F),
    incl (x :: t) l -> largest_of (x :: t) (fold_left fmax t x).
Proof.
  intros [Hmax Htrans]. induction t as [| y t IH]; intros x Hin.
  - assert (Hx : In x l) by (apply Hin; left; reflexivity).
    destruct (Hmax x x Hx Hx) as [Hc [Hle _]].
    split; [left; reflexivity |]. constructor; [| constructor].
    cbn [fold_left]. destruct Hc as [E | E]; rewrite E in Hle; exact Hle.
  - assert (Hx : In x l) by (apply Hin; left; reflexivity).
    assert (Hy : In y l) by (apply Hin; right; left; reflexivity).
    destruct (Hmax x y Hx Hy) as [Hc [Hlex Hley]].
    assert (Hz : In (fmax x y) l).
    { destruct Hc as [E | E]; rewrite E; assumption. }
    assert (Hin' : incl (fmax x y :: t) l).
    { intros a [<- | Ha]; [exact Hz | apply Hin; right; right; exact Ha]. }
    destruct (IH (fmax x y) Hin') as [Hm Hall].
    cbn [fold_left].
    assert (Hml : In (fold_left fmax t (fmax x y)) l)
      by (apply Hin'; exact Hm).
    inversion Hall as [| ? ? Hz_le Hrest]; subst.
    split.
    + destruct Hm as [E | Hm]; [| right; right; exact Hm].
      rewrite <- E.
      destruct Hc as [E' | E']; rewrite E'; [left | right; left];
        reflexivity.
    + constructor; [| constructor; [| exact Hrest]].
      * exact (Htrans _ _ _ Hx Hz Hml Hlex Hz_le).
      * exact (Htrans _ _ _ Hy Hz Hml Hley Hz_le).
Qed.

Lemma np_max_largest (l : list F) :
  l <> [] -> ordered_on l -> largest_of l (np_max l).
Proof.
  intros Hne Hord. destruct l as [| x t]; [contradiction |].
  apply (fold_fmax_largest Hord). apply incl_refl.
Qed.

Lemma max_abs_magnitudes (a : matrix F) : max_abs a = np_max (magnitudes a).
Proof. unfold max_abs, magnitudes, mabs. rewrite concat_map. reflexivity. Qed.

(** A matrix with a diagonal has an entry. *)
Lemma diagonal_nonempty (a : matrix F) : diagonal a <> [] -> concat a <> [].
Proof.
  unfold diagonal, nrows, ncols.
  destruct a as [| [| x r] rest]; cbn [length hd Nat.min seq map concat app].
  - intros Hd. exact Hd.
  - intros Hd. destruct (Hd eq_refl).
  - intros _. discriminate.
Qed.

Lemma finish_reports_largest diff sigma1 sigma2 (r : ndarray F) :
  reports_largest r (outcome (finish diff sigma1 sigma2 r)).
Proof.
  intros Hc Hd. destruct r as [re | re im]; [discriminate Hc |].
  cbn [imag] in *. exists (max_abs im). split.
  - unfold finish, take_real. rewrite Hd. reflexivity.
  - intros Hord. rewrite max_abs_magnitudes.
    apply np_max_largest; [| exact Hord].
    unfold magnitudes. intros E. apply map_eq_nil in E. revert E.
    apply diagonal_nonempty. intros E. rewrite E in Hd. discriminate Hd.
Qed.

(** C3: the square root is asked for once; when its result is not finite
    in every entry the warning is printed and it is asked for a second
    (and last) time, on [(sigma1 + eps*I).dot(sigma2 + eps*I)].  Whatever
    that second result is, no third call follows.  The result that
    reaches lines 201-210 is fatal exactly when it is complex with a
    diagonal imaginary part outside the tolerance, and the number the
    error carries is then the largest magnitude among all entries of the
    imaginary part: one of them, exceeded by none, wherever the
    comparison orders them (as it does float64 values that are not NaN).
    Otherwise the real part enters the formula, with nothing printed.  A
    [sqrtm] that raises ends the call at once. *)
Theorem frechet_retry_policy (n : nat)
        (mu1 : mean_like F) (sigma1 : cov_like F)
        (mu2 : mean_like F) (sigma2 : cov_like F) (eps : F) :
  vshape (atleast_1d mu1) = vshape (atleast_1d mu2) ->
  square n (atleast_2d sigma1) -> square n (atleast_2d sigma2) ->
  let run := calculate_frechet_distance sqrtm mu1 sigma1 mu2 sigma2 eps in
  let s1 := atleast_2d sigma1 in
  let s2 := atleast_2d sigma2 in
  let diff := vsub (atleast_1d mu1) (atleast_1d mu2) in
  let offset := mscale (eye n) eps in
  exists prod prod2,
    dot s1 s2 = Some prod /\
    dot (madd s1 offset) (madd s2 offset) = Some prod2 /\
    match sqrtm prod with
    | None =>
        events run = [EvSqrtm prod] /\
        outcome run = inl (ValueError msg_sqrtm [])
    | Some r1 =>
        if isfinite_all r1 then
          events run = [EvSqrtm prod] /\
          ends_on diff s1 s2 r1 (outcome run) /\
          reports_largest r1 (outcome run)
        else
          events run =
            [EvSqrtm prod; EvPrint msg_singular [eps]; EvSqrtm prod2] /\
          match sqrtm prod2 with
          | None => outcome run = inl (ValueError msg_sqrtm [])
          | Some r2 =>
              ends_on diff s1 s2 r2 (outcome run) /\
              reports_largest r2 (outcome run)
          end
    end.
Proof.
  intros Hmu Hs1 Hs2. cbv zeta.
  destruct (frechet_run_cases mu1 sigma1 mu2 sigma2 eps Hmu Hs1 Hs2)
    as [prod [prod2 [Hd [Hd2 Hrun]]]].
  exists prod, prod2. split; [exact Hd |]. split; [exact Hd2 |].
  rewrite Hrun. clear Hrun.
  destruct (sqrtm prod) as [r1 |]; [| split; reflexivity].
  destruct (isfinite_all r1).
  - cbn [events outcome fst snd]. rewrite finish_silent.
    split; [reflexivity |].
    split; [apply finish_ends_on | apply finish_reports_largest].
  - destruct (sqrtm prod2) as [r2 |]; cbn [events outcome fst snd].
    + rewrite finish_silent. split; [reflexivity |].
      split; [apply finish_ends_on | apply finish_reports_largest].
    + split; reflexivity.
Qed.
End FrechetRetry.

(** ** The value of the distance *)

Section FrechetValue.
Local Open Scope float_scope.

(** C1, as the code has it: for summaries of equal dimensionality whose
    product [sigma1.dot(sigma2)] has a finite square root that is real or
    has a diagonal imaginary part within the tolerance, the call returns
    [diff.dot(diff) + trace(sigma1) + trace(sigma2) - 2 * trace(real root)],
    in whatever arithmetic the scalars have; and in float64, for the 1-D
    Gaussians with means 0 and 3 and variances 1, whose covariance product
    [[1.]] has the root [[1.]], it returns exactly 9. *)
Theorem frechet_distance_value :
  (forall (F : Type) (S : Scalar F) (sqrtm : matrix F -> option (ndarray F))
          (n : nat) (mu1 : mean_like F) (sigma1 : cov_like F)
          (mu2 : mean_like F) (sigma2 : cov_like F) (eps : F)
          (prod : matrix F) (r : ndarray F),
      vshape (atleast_1d mu1) = vshape (atleast_1d mu2) ->
      square n (atleast_2d sigma1) -> square n (atleast_2d sigma2) ->
      dot (atleast_2d sigma1) (atleast_2d sigma2) = Some prod ->
      sqrtm prod = Some r ->
      isfinite_all r = true ->
      iscomplexobj r = false \/ allclose_zero (diagonal (imag r)) = true ->
      let diff := vsub (atleast_1d mu1) (atleast_1d mu2) in
      calculate_frechet_distance sqrtm mu1 sigma1 mu2 sigma2 eps =
        ([EvSqrtm prod],
         inr (fsub (fadd (fadd (vdot diff diff) (trace (atleast_2d sigma1)))
                         (trace (atleast_2d sigma2)))
                   (fmul ftwo (trace (real r)))))) /\
  (forall (sqrtm : matrix float -> option (ndarray float)) (eps : float),
      sqrtm [[1]] = Some (RealArray [[1]]) ->
      calculate_frechet_distance sqrtm
        (MeanScalar 0) (CovScalar 1) (MeanScalar 3) (CovScalar 1) eps
      = ([EvSqrtm [[1]]], inr 9)).
Proof.
  split.
  - intros. eapply frechet_value_formula; eassumption.
  - intros sqrtm eps Hroot.
    assert (Hsq : square (F := float) 1 [[1]]).
    { split; [reflexivity |]. repeat constructor. }
    rewrite (@frechet_value_formula float _ sqrtm 1
               (MeanScalar 0) (CovScalar 1) (MeanScalar 3) (CovScalar 1) eps
               [[1]] (RealArray [[1]])); auto.
Qed.

(** C1 as stated fails: the value is not always non-negative.  For the
    1-D summaries with means 0 and variances 1.5 and 1.5000000000000002
    the float64 sum of the traces rounds to 3.0 while twice the root
    rounds to 3.0000000000000004, and the call returns -2^-51. *)
Lemma frechet_distance_negative :
  outcome (Float64.frechet_1d 0 0x1.8p+0 0 0x1.8000000000001p+0) = inr (-0x1p-51) /\
  (-0x1p-51 <? 0) = true.
Proof. split; vm_compute; reflexivity. Qed.
End FrechetValue.

(** ** Concrete runs of the Frechet distance *)

(** ** The arithmetic of binary64 *)

(** Laws of the primitive operations the statements below rely on, from
    their specification in [SpecFloat]. *)
Module Float64Facts.

(** ** Specification-level facts, for any precision *)

Section Spec.
Variables prec emax : Z.

Lemma SFmul_comm (x y : spec_float) :
  SFmul prec emax x y = SFmul prec emax y x.
Proof.
  destruct x as [sx | sx | | sx mx ex], y as [sy | sy | | sy my ey];
    simpl; try reflexivity; try (rewrite xorb_comm; reflexivity).
  rewrite xorb_comm, Pos.mul_comm, Z.add_comm. reflexivity.
Qed.

Lemma binary_round_opp (s : bool) (m : positive) (e : Z) :
  binary_round prec emax (negb s) m e = SFopp (binary_round prec emax s m e).
Proof.
  unfold binary_round. destruct (shl_align _ _ _) as [mz ez].
  unfold binary_round_aux.
  destruct (shr_fexp prec emax (Z.pos mz) ez loc_Exact) as [mrs' e'].
  destruct (shr_fexp prec emax _ e' loc_Exact) as [mrs'' e''].
  destruct (shr_m mrs''); [reflexivity | | reflexivity].
  destruct (e'' <=? emax - prec)%Z; reflexivity.
Qed.

Lemma binary_normalize_opp (m e : Z) :
  m <> 0%Z ->
  binary_normalize prec emax (- m) e false
  = SFopp (binary_normalize prec emax m e false).
Proof.
  intros Hm. destruct m as [| p | p]; [contradiction | |]; simpl.
  - apply (binary_round_opp false).
  - rewrite (binary_round_opp false).
    destruct (binary_round _ _ _ _ _) as [[] | [] | | []]; reflexivity.
Qed.

(** Swapping the operands of a subtraction negates the result, except
    that an exact zero difference is [+0] both ways. *)
Lemma SFsub_swap (x y : spec_float) :
  SFsub prec emax y x = SFopp (SFsub prec emax x y) \/
  (exists s s', SFsub prec emax x y = S754_zero s /\
                SFsub prec emax y x = S754_zero s').
Proof.
  destruct x as [sx | sx | | sx mx ex], y as [sy | sy | | sy my ey];
    try (left; reflexivity);
    try (destruct sx, sy;
         (left; reflexivity) || (right; do 2 eexists; split; reflexivity)).
  all: try (left; simpl; rewrite ?negb_involutive; reflexivity).
  cbn [SFsub]. rewrite (Z.min_comm ey ex).
  set (a := cond_Zopp sx _). set (b := cond_Zopp sy _).
  destruct (Z.eq_dec (a - b) 0) as [E | E].
  - right. replace (b - a)%Z with 0%Z by lia. rewrite E.
    do 2 eexists. split; reflexivity.
  - left. replace (b - a)%Z with (- (a - b))%Z by lia.
    apply binary_normalize_opp. exact E.
Qed.

Lemma SFmul_opp_self (x : spec_float) :
  SFmul prec emax (SFopp x) (SFopp x) = SFmul prec emax x x.
Proof. destruct x as [[] | [] | | [] m e]; reflexivity. Qed.

Lemma SFsub_square (x y : spec_float) :
  SFmul prec emax (SFsub prec emax x y) (SFsub prec emax x y)
  = SFmul prec emax (SFsub prec emax y x) (SFsub prec emax y x).
Proof.
  destruct (SFsub_swap x y) as [E | [s [s' [E E']]]].
  - rewrite E. symmetry. apply SFmul_opp_self.
  - rewrite E, E'. destruct s, s'; reflexivity.
Qed.

(** [SFcompare] is a total preorder away from NaN. *)
Lemma SFcompare_refl (x : spec_float) :
  x <> S754_nan -> SFcompare x x = Some Eq.
Proof.
  destruct x as [s | s | | s m e]; intros Hx; try reflexivity.
  - destruct s; reflexivity.
  - contradiction.
  - simpl. rewrite Z.compare_refl.
    change (Pos.compare_cont Eq m m) with (Pos.compare m m).
    rewrite Pos.compare_refl. destruct s; reflexivity.
Qed.

Lemma SFcompare_antisym (x y : spec_float) :
  SFcompare y x = option_map CompOpp (SFcompare x y).
Proof.
  destruct x as [sx | sx | | sx mx ex], y as [sy | sy | | sy my ey];
    try reflexivity;
    try (destruct sx; reflexivity); try (destruct sy; reflexivity);
    try (destruct sx, sy; reflexivity).
  simpl. rewrite (Z.compare_antisym ex ey).
  change (Pos.compare_cont Eq my mx) with (Pos.compare my mx).
  change (Pos.compare_cont Eq mx my) with (Pos.compare mx my).
  rewrite (Pos.compare_antisym mx my).
  destruct sx, sy; try reflexivity;
    destruct (ex ?= ey)%Z; simpl; try reflexivity;
    destruct (mx ?= my)%positive; reflexivity.
Qed.

Lemma SFltb_leb (x y : spec_float) : SFltb x y = true -> SFleb x y = true.
Proof.
  unfold SFltb, SFleb. destruct (SFcompare x y) as [[] |];
    intros E; try discriminate E; reflexivity.
Qed.

Lemma SFleb_refl (x : spec_float) : x <> S754_nan -> SFleb x x = true.
Proof. intros Hx. unfold SFleb. rewrite (SFcompare_refl Hx). reflexivity. Qed.

Lemma SFleb_of_not_ltb (x y : spec_float) :
  x <> S754_nan -> y <> S754_nan -> SFltb x y = false -> SFleb y x = true.
Proof.
  intros Hx Hy. unfold SFltb, SFleb. rewrite (SFcompare_antisym x y).
  destruct (SFcompare x y) as [[] |] eqn:E; simpl; intros Hlt;
    try reflexivity; try discriminate Hlt.
  destruct x, y; try contradiction; simpl in E; discriminate E.
Qed.

Lemma SFleb_trans (x y z : spec_float) :
  SFleb x y = true -> SFleb y z = true -> SFleb x z = true.
Proof.
  unfold SFleb.
  destruct x as [sx | sx | | sx mx ex], y as [sy | sy | | sy my ey],
           z as [sz | sz | | sz mz ez];
    simpl; try (intros; discriminate); try reflexivity;
    try (destruct sx, sy, sz; simpl; intros; (reflexivity || discriminate)).
  change (Pos.compare_cont Eq mx my) with (Pos.compare mx my).
  change (Pos.compare_cont Eq my mz) with (Pos.compare my mz).
  change (Pos.compare_cont Eq mx mz) with (Pos.compare mx mz).
  destruct sx, sy, sz; try (intros; (reflexivity || discriminate));
    destruct (Z.compare_spec ex ey), (Z.compare_spec ey ez),
             (Z.compare_spec ex ez);
    try lia; try (intros; (reflexivity || discriminate));
    destruct (Pos.compare_spec mx my), (Pos.compare_spec my mz),
             (Pos.compare_spec mx mz);
    simpl; try lia; try (intros; (reflexivity || discriminate)).
Qed.
End Spec.

(** ** Binary64 *)

Local Open Scope float_scope.

Lemma float_mul_comm (a b : float) : a * b = b * a.
Proof. apply Prim2SF_inj. rewrite !FloatAxioms.mul_spec. apply SFmul_comm. Qed.

Lemma float_sub_square (a b : float) :
  (a - b) * (a - b) = (b - a) * (b - a).
Proof.
  apply Prim2SF_inj.
  rewrite !FloatAxioms.mul_spec, !FloatAxioms.sub_spec.
  apply SFsub_square.
Qed.

Lemma float_not_nan_spec (x : float) :
  is_nan x = false -> Prim2SF x <> S754_nan.
Proof.
  unfold is_nan. rewrite FloatAxioms.eqb_spec. intros E Hx. rewrite Hx in E.
  discriminate E.
Qed.

Lemma float_abs_not_nan (x : float) : is_nan x = false -> is_nan (abs x) = false.
Proof.
  intros Hx. apply float_not_nan_spec in Hx.
  unfold is_nan. rewrite FloatAxioms.eqb_spec, FloatAxioms.abs_spec. unfold SFeqb.
  rewrite SFcompare_refl; [reflexivity |].
  destruct (Prim2SF x); try discriminate. contradiction.
Qed.

Lemma float_leb_refl (x : float) : is_nan x = false -> (x <=? x) = true.
Proof. intros Hx. rewrite FloatAxioms.leb_spec. apply SFleb_refl, float_not_nan_spec, Hx. Qed.

Lemma float_ltb_leb (x y : float) : (x <? y) = true -> (x <=? y) = true.
Proof. rewrite FloatAxioms.ltb_spec, FloatAxioms.leb_spec. apply SFltb_leb. Qed.

Lemma float_leb_of_not_ltb (x y : float) :
  is_nan x = false -> is_nan y = false ->
  (x <? y) = false -> (y <=? x) = true.
Proof.
  intros Hx Hy. rewrite FloatAxioms.ltb_spec, FloatAxioms.leb_spec.
  apply SFleb_of_not_ltb; apply float_not_nan_spec; assumption.
Qed.

Lemma float_leb_trans (x y z : float) :
  (x <=? y) = true -> (y <=? z) = true -> (x <=? z) = true.
Proof. rewrite !FloatAxioms.leb_spec. apply SFleb_trans. Qed.

(** Values that are not NaN are ordered by [<=?], and [np.maximum] picks
    the larger of two of them. *)
Lemma ordered_without_nan (l : list float) :
  Forall (fun x => is_nan x = false) l -> ordered_on l.
Proof.
  intros Hl. rewrite Forall_forall in Hl. split.
  - intros a b Ha Hb.
    pose proof (Hl a Ha) as Na. pose proof (Hl b Hb) as Nb.
    cbn [fmax fleb Float64.float64]. unfold Float64.maximum.
    rewrite Na, Nb. destruct (a <? b) eqn:E.
    + split; [right; reflexivity |].
      split; [apply float_ltb_leb; exact E | apply float_leb_refl; exact Nb].
    + split; [left; reflexivity |].
      split; [apply float_leb_refl; exact Na |].
      apply float_leb_of_not_ltb; assumption.
  - intros a b c _ _ _. apply float_leb_trans.
Qed.

Lemma magnitudes_ordered (a : matrix float) :
  Forall (fun x => is_nan x = false) (concat a) -> ordered_on (magnitudes a).
Proof.
  intros Ha. apply ordered_without_nan. unfold magnitudes.
  apply Forall_map. revert Ha. apply Forall_impl.
  intros x Hx. apply float_abs_not_nan. exact Hx.
Qed.
End Float64Facts.

Section FrechetRuns.
Local Open Scope float_scope.

Lemma square_1x1 (x : float) : square 1 (atleast_2d (CovScalar x)).
Proof. split; [reflexivity |]. repeat constructor. Qed.

(** Means of lengths 2 and 3: the first assertion fails. *)
Lemma frechet_mismatch_asserts_witness :
  (vshape (atleast_1d (MeanVector [0; 0]))
     <> vshape (atleast_1d (MeanVector [0; 0; 0])) \/
   mshape (atleast_2d (CovScalar 1)) <> mshape (atleast_2d (CovScalar 1))) /\
  calculate_frechet_distance Float64.sqrtm_1x1
    (MeanVector [0; 0]) (CovScalar 1) (MeanVector [0; 0; 0]) (CovScalar 1)
    eps_default
  = ([], inl (AssertionError msg_means)).
Proof.
  assert (Hne : vshape (atleast_1d (MeanVector [0; 0]))
                <> vshape (atleast_1d (MeanVector [0; 0; 0]))).
  { simpl. lia. }
  split; [left; exact Hne |].
  exact (frechet_mismatch_asserts Float64.sqrtm_1x1
           (MeanVector [0; 0]) (CovScalar 1) (MeanVector [0; 0; 0])
           (CovScalar 1) eps_default (or_introl Hne)).
Defined.

(** Means of length 2 against 1x1 covariances: both assertions pass. *)
Lemma frechet_checks_pass_witness :
  let run := calculate_frechet_distance Float64.sqrtm_1x1
               (MeanVector [0; 0]) (CovMatrix [[1]])
               (MeanVector [3; 4]) (CovMatrix [[1]]) eps_default in
  run = frechet_body Float64.sqrtm_1x1 [0; 0] [[1]] [3; 4] [[1]] eps_default /\
  (exists prod, dot [[1]] [[1]] = Some prod /\
                hd_error (events run) = Some (EvSqrtm prod)) /\
  (forall msg, outcome run <> inl (AssertionError msg)).
Proof.
  apply (@frechet_checks_pass_on_mean_cov_mismatch float _ Float64.sqrtm_1x1
           2 1 [0; 0] [3; 4] [[1]] [[1]] eps_default).
  - lia.
  - reflexivity.
  - reflexivity.
  - apply (square_1x1 1).
  - apply (square_1x1 1).
Defined.

(** The same run returns 25 = 3^2 + 4^2 + 1 + 1 - 2. *)
Example frechet_checks_pass_value :
  outcome (calculate_frechet_distance Float64.sqrtm_1x1
             (MeanVector [0; 0]) (CovMatrix [[1]])
             (MeanVector [3; 4]) (CovMatrix [[1]]) eps_default) = inr 25.
Proof. vm_compute. reflexivity. Qed.

(** Zero against identity covariances, 2x2, with a root finder that
    answers all NaN on the zero product and a complex root on the
    regularised one: the warning, the second call, and the fatal end,
    which reports the largest of the magnitudes 0.5, 2, 0.25 and 1. *)
Lemma frechet_retry_policy_witness :
  (vshape (atleast_1d (MeanVector [0; 0]))
     = vshape (atleast_1d (MeanVector [0; 0])) /\
   square 2 (atleast_2d (CovMatrix Samples.zeros2x2)) /\
   square 2 (atleast_2d (CovMatrix Samples.identity2x2))) /\
  let run := calculate_frechet_distance Samples.sqrtm_complex_on_retry
               (MeanVector [0; 0]) (CovMatrix Samples.zeros2x2)
               (MeanVector [0; 0]) (CovMatrix Samples.identity2x2)
               eps_default in
  exists prod2 m,
    events run = [EvSqrtm Samples.zeros2x2;
                  EvPrint msg_singular [eps_default];
                  EvSqrtm prod2] /\
    outcome run = inl (ValueError msg_imag [m]) /\
    largest_of (magnitudes Samples.imaginary_part) m.
Proof.
  assert (Hz : square 2 (atleast_2d (CovMatrix Samples.zeros2x2)))
    by (split; [reflexivity | repeat constructor]).
  assert (Hi : square 2 (atleast_2d (CovMatrix Samples.identity2x2)))
    by (split; [reflexivity | repeat constructor]).
  split; [split; [reflexivity | split; assumption] |].
  cbv zeta.
  destruct (@frechet_retry_policy float _ Samples.sqrtm_complex_on_retry 2
              (MeanVector [0; 0]) (CovMatrix Samples.zeros2x2)
              (MeanVector [0; 0]) (CovMatrix Samples.identity2x2)
              eps_default eq_refl Hz Hi)
    as [prod [prod2 [Hd [Hd2 Hrun]]]].
  assert (Hprod : prod = Samples.zeros2x2).
  { vm_compute in Hd. injection Hd as <-. reflexivity. }
  subst prod.
  assert (E1 : Samples.sqrtm_complex_on_retry Samples.zeros2x2
               = Some (RealArray [[nan; nan]; [nan; nan]]))
    by (vm_compute; reflexivity).
  assert (E2 : Samples.sqrtm_complex_on_retry prod2
               = Some (ComplexArray [[1; 0]; [0; 1]] Samples.imaginary_part)).
  { vm_compute in Hd2. injection Hd2 as <-. vm_compute. reflexivity. }
  rewrite E1 in Hrun.
  assert (Enan : isfinite_all (RealArray [[nan; nan]; [nan; nan]]) = false)
    by (vm_compute; reflexivity).
  rewrite Enan, E2 in Hrun.
  destruct Hrun as [Hev [_ Hrep]].
  destruct Hrep as [m [Hout Hmax]];
    [reflexivity | vm_compute; reflexivity |].
  exists prod2, m. split; [exact Hev |]. split; [exact Hout |].
  apply Hmax. apply Float64Facts.magnitudes_ordered.
  repeat constructor.
Defined.

(** That run in full: the number reported is 2, the magnitude of an
    entry off the diagonal. *)
Example frechet_retry_imaginary_run :
  calculate_frechet_distance Samples.sqrtm_complex_on_retry
    (MeanVector [0; 0]) (CovMatrix Samples.zeros2x2)
    (MeanVector [0; 0]) (CovMatrix Samples.identity2x2) eps_default
  = ([EvSqrtm [[0; 0]; [0; 0]];
      EvPrint msg_singular [Float64.eps_1e_6];
      EvSqrtm [[0x1.0c6f8ba2f859fp-20; 0]; [0; 0x1.0c6f8ba2f859fp-20]]],
     inl (ValueError msg_imag [2])).
Proof. vm_compute. reflexivity. Qed.

(** Variances 4 and 9: the product [[36.]] has the finite real root
    [[6.]], and one call gives the value 4 + 9 - 2 * 6. *)
Example frechet_retry_policy_run :
  Float64.frechet_1d 0 4 0 9 = ([EvSqrtm [[36]]], inr 1).
Proof. vm_compute. reflexivity. Qed.

(** Variances 0 and 4 with a root finder that gives up on [[0.]]: the
    warning, a second call on (0 + 1e-6) * (4 + 1e-6), and the value
    0 + 4 - 2 * sqrt(4.000001e-06). *)
Example frechet_second_attempt_run :
  calculate_frechet_distance Float64.sqrtm_giving_up
    (MeanScalar 0) (CovScalar 0) (MeanScalar 0) (CovScalar 4) eps_default
  = ([EvSqrtm [[0]];
      EvPrint msg_singular [Float64.eps_1e_6];
      EvSqrtm [[0x1.0c6f7e7145392p-18]]],
     inr 0x1.ff7ced905591fp+1).
Proof. vm_compute. reflexivity. Qed.

(** A negative variance against a positive one: the root is imaginary
    and the call is fatal, reporting its magnitude. *)
Example frechet_imaginary_run :
  Float64.frechet_1d 0 1 0 (-1)
  = ([EvSqrtm [[-1]]], inl (ValueError msg_imag [1])).
Proof. vm_compute. reflexivity. Qed.

(** The two parts of [frechet_distance_value] at the 1-D example. *)
Lemma frechet_distance_value_witness :
  calculate_frechet_distance Float64.sqrtm_1x1
    (MeanScalar 0) (CovScalar 1) (MeanScalar 3) (CovScalar 1) eps_default
  = ([EvSqrtm [[1]]], inr 9).
Proof.
  apply (proj2 frechet_distance_value Float64.sqrtm_1x1 eps_default).
  vm_compute. reflexivity.
Defined.
End FrechetRuns.

(** ** The activation matrix of [get_activations] *)

Section Batches.
Context {A : Type}.

Lemma num_batches_covers (n batch_size : nat) :
  batch_size <> 0 -> n <= num_batches n batch_size * batch_size.
Proof.
  intros Hb. unfold num_batches.
  pose proof (Nat.div_mod_eq (n + batch_size - 1) batch_size) as Hdm.
  pose proof (Nat.mod_upper_bound (n + batch_size - 1) batch_size Hb) as Hlt.
  nia.
Qed.

Lemma chunks_concat (batch_size : nat) :
  forall (k : nat) (l : list A),
    length l <= k * batch_size ->
    concat (map (fun i => firstn batch_size (skipn (i * batch_size) l))
                (seq 0 k)) = l.
Proof.
  induction k as [| k IH]; intros l Hlen.
  - simpl in *. destruct l; [reflexivity | simpl in Hlen; lia].
  - rewrite <- cons_seq, <- seq_shift. cbn [map concat]. rewrite map_map.
    change (skipn (0 * batch_size) l) with l.
    transitivity (firstn batch_size l ++ skipn batch_size l);
      [| apply firstn_skipn].
    f_equal. rewrite <- (IH (skipn batch_size l)).
    + f_equal. apply map_ext. intros i. rewrite skipn_skipn.
      do 2 f_equal. simpl. lia.
    + rewrite length_skipn. simpl in Hlen. lia.
Qed.

End Batches.

Section Activations.
Context {F : Type} `{Scalar F}.
Variables (Model image : Type).
Variable getitem : list transform -> string -> image.
Variable run_model : Model -> list image -> tensor4 (F := F).
Variable spatial_mean : matrix F -> F.


(** No batch is lost and none repeated: the batches of the loader, put
    end to end, are the files. *)
Lemma batches_concat (files : list string) (batch_size : nat) :
  batch_size <> 0 -> concat (batches files batch_size) = files.
Proof.
  intros Hb. unfold batches. apply chunks_concat.
  apply num_batches_covers. exact Hb.
Qed.

Lemma activations_loop_run model transforms :
  forall (todo : list (list string)) (pred_arr : list (matrix F)),
    activations_loop getitem run_model spatial_mean model transforms todo
                     pred_arr =
      (map (@EvModel F) todo,
       inr (pred_arr ++ map (batch_rows getitem run_model spatial_mean model transforms) todo)).
Proof.
  induction todo as [| batch rest IH]; intros pred_arr.
  - simpl. rewrite app_nil_r. reflexivity.
  - cbn [activations_loop]. rewrite emit_bind, IH.
    cbn [events outcome fst snd map]. rewrite <- app_assoc. reflexivity.
Qed.

Hypothesis model_keeps_batch :
  forall model imgs, length (samples (run_model model imgs)) = length imgs.


End Activations.



(** Batch size 2 on three files: two batches, the second short. *)
Example get_activations_short_last_batch :
  Toy.get_activations ["a.png"; "b.png"; "c.png"]%string tt false 2 256 =
    ([EvModel ["a.png"; "b.png"]%string; EvModel ["c.png"]%string],
     inr [[1%float]; [1%float]; [1%float]]).
Proof. vm_compute. reflexivity. Qed.

(** ** The extractor tags *)

Section FidTypes.
Context {F : Type} `{Scalar F}.
Variable sqrtm : matrix F -> option (ndarray F).
Variables (Model image : Type).
Variable load_resnet : string -> list nat -> option nat -> Model.
Variable InceptionV3 : list nat -> Model.
Variable getitem : list transform -> string -> image.
Variable run_model : Model -> list image -> tensor4 (F := F).
Variable spatial_mean : matrix F -> F.
Variable np_mean_axis0 : matrix F -> vector F.
Variable np_cov : matrix F -> cov_like F.
Variable np_load : string -> mean_like F * cov_like F.
Local Open Scope string_scope.

Lemma select_extractor_invalid (num_classes : option nat) (fid_type : string) :
  ~ In fid_type valid_fid_types ->
  select_extractor (F := F) load_resnet InceptionV3 num_classes fid_type =
    ([], inl (NotImplementedError (msg_invalid fid_type))).
Proof.
  intros Hout. unfold select_extractor, valid_fid_types in *.
  repeat match goal with
  | |- context [String.eqb fid_type ?t] =>
      destruct (String.eqb_spec fid_type t) as [-> | _];
        [exfalso; apply Hout; simpl; tauto |]
  end.
  reflexivity.
Qed.


(** With a known tag every entry point starts by building the extractor
    bound to it: the four tags are accepted, and only they. *)
Lemma entry_points_first_event (fid_type : string) nc :
  In fid_type valid_fid_types ->
  exists ev model flag,
    select_extractor (F := F) load_resnet InceptionV3 nc fid_type
      = ([ev], inr (model, flag)).
Proof.
  unfold valid_fid_types. simpl.
  intros [<- | [<- | [<- | [<- | []]]]]; do 3 eexists; reflexivity.
Qed.
End FidTypes.


(** A known tag goes all the way: two one-image sets, equal statistics
    from the stand-ins, distance 0 + 1 + 1 - 2. *)
Example calculate_fid_given_paths_run :
  calculate_fid_given_paths Float64.sqrtm_1x1 Standin.load_resnet
    Standin.InceptionV3 (fun _ p => p) Toy.run_model Toy.spatial_mean
    Standin.np_mean_axis0 Standin.np_cov
    (["a.png"], ["b.png"])%string 1 "cad"
  = ([EvLoadResnet "data/abc_processed/fid/resnet18_cad.ckpt" [3] None;
      EvModel ["a.png"%string]; EvModel ["b.png"%string];
      EvSqrtm [[1%float]]],
     inr 0%float).
Proof. vm_compute. reflexivity. Qed.

(** ** The Chamfer operator *)

Module ChamferFacts.
Import Chamfer.

Section Padding.
Context {F : Type} `{Scalar F}.
Variable cd_forward cd_forward_cuda : forward_kernel (F := F).
Variable cd_backward cd_backward_cuda : backward_kernel (F := F).

Lemma size3d_eta {A} (t : tensor3 A) :
  size3d t = (shape0 t, shape1 t, shape2 t).
Proof. unfold shape0, shape1, shape2. destruct (size3d t) as [[b n] k]. reflexivity. Qed.

(** Appending one zero to each of [n] points. *)
Lemma pad_points (pts : list (list F)) :
  zip_with (@app F) pts (repeat [fzero] (length pts))
  = map (fun p => p ++ [fzero]) pts.
Proof.
  induction pts as [| p pts IH]; [reflexivity |].
  simpl repeat. rewrite zip_with_cons. simpl map. f_equal. exact IH.
Qed.

(** With a batch of one, the concatenation with [zeros(1, n, 1)] is the
    embedding. *)
Lemma cat_zeros_embed (t : tensor3 F) (device : bool) :
  well_shaped t -> shape0 t = 1 -> shape2 t = 2 ->
  cat_dim2 t (to3 (zeros3 fzero 1 (shape1 t) 1) device) = inr (embed3 t).
Proof.
  intros Hw Hb Hk. unfold well_shaped in Hw.
  rewrite (size3d_eta t), Hb in Hw. destruct Hw as [Hlen Hpts].
  unfold cat_dim2, embed3.
  change (shape0 (to3 (zeros3 fzero 1 (shape1 t) 1) device)) with 1.
  change (shape1 (to3 (zeros3 fzero 1 (shape1 t) 1) device)) with (shape1 t).
  change (shape2 (to3 (zeros3 fzero 1 (shape1 t) 1) device)) with 1.
  change (data3d (to3 (zeros3 fzero 1 (shape1 t) 1) device))
    with [repeat [fzero] (shape1 t)].
  rewrite Hb, Hk, !Nat.eqb_refl. simpl andb. cbv iota.
  destruct (data3d t) as [| pts [| ? ?]]; try discriminate Hlen.
  inversion Hpts as [| ? ? [Hn _] _]; subst.
  unfold zip_with at 1. cbn [combine map fst snd].
  rewrite <- Hn, pad_points. reflexivity.
Qed.

(** With any other batch size the concatenation is refused. *)
Lemma cat_zeros_refused (t : tensor3 F) (device : bool) :
  shape0 t <> 1 ->
  cat_dim2 t (to3 (zeros3 fzero 1 (shape1 t) 1) device)
  = inl (RuntimeError msg_cat).
Proof.
  intros Hb. unfold cat_dim2.
  replace (shape0 (to3 (zeros3 fzero 1 (shape1 t) 1) device)) with 1
    by reflexivity.
  apply Nat.eqb_neq in Hb. rewrite Hb. reflexivity.
Qed.

Lemma pad_inputs_embed (xyz1 xyz2 : tensor3 F) :
  well_shaped xyz1 -> well_shaped xyz2 ->
  shape0 xyz1 = 1 -> shape0 xyz2 = 1 ->
  shape2 xyz1 = 2 -> shape2 xyz2 = 2 ->
  pad_inputs xyz1 xyz2 = inr (embed3 xyz1, embed3 xyz2).
Proof.
  intros Hw1 Hw2 Hb1 Hb2 Hk1 Hk2. unfold pad_inputs.
  rewrite Hk1. simpl Nat.eqb. cbv iota.
  rewrite !cat_zeros_embed by assumption.
  reflexivity.
Qed.

Lemma pad_inputs_3d (xyz1 xyz2 : tensor3 F) :
  shape2 xyz1 = 3 -> pad_inputs xyz1 xyz2 = inr (xyz1, xyz2).
Proof. intros Hk. unfold pad_inputs. rewrite Hk. reflexivity. Qed.

(** The part of C2 the code delivers: with a batch of one, 2-D input
    gives what the same points embedded in 3-D give. *)
Lemma forward_2d_matches_embedding_batch1 ctx (xyz1 xyz2 : tensor3 F) :
  well_shaped xyz1 -> well_shaped xyz2 ->
  shape0 xyz1 = 1 -> shape0 xyz2 = 1 ->
  shape2 xyz1 = 2 -> shape2 xyz2 = 2 ->
  forward cd_forward cd_forward_cuda ctx xyz1 xyz2 =
  forward cd_forward cd_forward_cuda ctx (embed3 xyz1) (embed3 xyz2).
Proof.
  intros Hw1 Hw2 Hb1 Hb2 Hk1 Hk2. unfold forward.
  rewrite pad_inputs_embed by assumption.
  rewrite (@pad_inputs_3d (embed3 xyz1) (embed3 xyz2)) by reflexivity.
  reflexivity.
Qed.

(** With any other batch size, 2-D input never reaches a kernel. *)
Lemma forward_2d_refused ctx (xyz1 xyz2 : tensor3 F) :
  shape2 xyz1 = 2 -> shape0 xyz1 <> 1 ->
  forward cd_forward cd_forward_cuda ctx xyz1 xyz2
  = inl (RuntimeError msg_cat).
Proof.
  intros Hk Hb. unfold forward, pad_inputs. rewrite Hk. simpl Nat.eqb.
  cbv iota. rewrite cat_zeros_refused by assumption. reflexivity.
Qed.

Lemma forward_3d_returns ctx (xyz1 xyz2 : tensor3 F) :
  shape2 xyz1 = 3 ->
  exists r, forward cd_forward cd_forward_cuda ctx xyz1 xyz2 = inr r.
Proof.
  intros Hk. unfold forward. rewrite pad_inputs_3d by assumption.
  destruct (is_cuda3 xyz1); simpl.
  - destruct (cd_forward_cuda _ _ _ _ _ _) as [[[d1 d2] i1] i2]. eauto.
  - destruct (cd_forward _ _ _ _ _ _) as [[[d1 d2] i1] i2]. eauto.
Qed.
End Padding.

(** C2 at a batch of two: the padding is built with a batch of one, the
    concatenation is refused, and the forward pass raises where the same
    points embedded in 3-D go through. *)
Theorem forward_2d_batch_of_two_raises
        (cd_forward cd_forward_cuda : forward_kernel (F := float)) :
  forward cd_forward cd_forward_cuda Standin.no_context
          Standin.pair_a Standin.pair_b
    = inl (RuntimeError msg_cat) /\
  exists r,
    forward cd_forward cd_forward_cuda Standin.no_context
            (embed3 Standin.pair_a) (embed3 Standin.pair_b) = inr r.
Proof.
  split.
  - apply forward_2d_refused; [reflexivity | discriminate].
  - apply forward_3d_returns. reflexivity.
Qed.
Section Backward.
Context {F : Type} `{Scalar F}.
Variable cd_forward cd_forward_cuda : forward_kernel (F := F).
Variable cd_backward cd_backward_cuda : backward_kernel (F := F).

Lemma cat_dim2_size (s t r : tensor3 F) :
  cat_dim2 s t = inr r ->
  size3d r = (shape0 s, shape1 s, shape2 s + shape2 t).
Proof.
  unfold cat_dim2.
  destruct ((shape0 s =? shape0 t) && (shape1 s =? shape1 t));
    intros E; inversion E; reflexivity.
Qed.

(** What [forward] saves is what [pad_inputs] produced. *)
Lemma forward_saves_padded ctx (xyz1 xyz2 : tensor3 F) ctx' out :
  forward cd_forward cd_forward_cuda ctx xyz1 xyz2 = inr (ctx', out) ->
  exists p1 p2 idx1 idx2,
    pad_inputs xyz1 xyz2 = inr (p1, p2) /\
    saved_tensors ctx' = Some (p1, p2, idx1, idx2).
Proof.
  unfold forward. destruct (pad_inputs xyz1 xyz2) as [e | [p1 p2]];
    [discriminate |].
  intros E. exists p1, p2.
  destruct (negb (is_cuda3 p1));
    [destruct (cd_forward _ _ _ _ _ _) as [[[d1 d2] i1] i2]
    | destruct (cd_forward_cuda _ _ _ _ _ _) as [[[d1 d2] i1] i2]];
    inversion E; subst; simpl; eauto.
Qed.

(** The gradients have the sizes of the saved tensors. *)
Lemma backward_sizes ctx (p1 p2 : tensor3 F) idx1 idx2 graddist1 graddist2 :
  saved_tensors ctx = Some (p1, p2, idx1, idx2) ->
  exists g1 g2,
    backward cd_backward cd_backward_cuda ctx graddist1 graddist2
      = inr (g1, g2) /\
    size3d g1 = size3d p1 /\ size3d g2 = size3d p2.
Proof.
  intros Hs. unfold backward. rewrite Hs.
  destruct (size3d p1) as [[b1 n1] k1] eqn:E1.
  destruct (size3d p2) as [[b2 n2] k2] eqn:E2.
  destruct (negb (is_cuda2 graddist1));
    [destruct (cd_backward _ _ _ _ _ _ _ _) as [g1 g2]
    | destruct (cd_backward_cuda _ _ _ _ _ _ _ _) as [g1 g2]];
    do 2 eexists; (split; [reflexivity | split; reflexivity]).
Qed.

(** C9: when [forward] takes 2-D input and returns, the tensors it saved
    for [backward] are the padded ones, with 3 coordinates, and
    [backward] returns gradients of those sizes: their last dimension is
    3, not the 2 of the tensors [forward] was given. *)
Theorem backward_gradients_are_padded ctx (xyz1 xyz2 : tensor3 F) ctx' out :
  shape2 xyz1 = 2 -> shape2 xyz2 = 2 ->
  forward cd_forward cd_forward_cuda ctx xyz1 xyz2 = inr (ctx', out) ->
  exists p1 p2 idx1 idx2,
    pad_inputs xyz1 xyz2 = inr (p1, p2) /\
    saved_tensors ctx' = Some (p1, p2, idx1, idx2) /\
    size3d p1 = (shape0 xyz1, shape1 xyz1, 3) /\
    size3d p2 = (shape0 xyz2, shape1 xyz2, 3) /\
    forall graddist1 graddist2,
    exists gradxyz1 gradxyz2,
      backward cd_backward cd_backward_cuda ctx' graddist1 graddist2
        = inr (gradxyz1, gradxyz2) /\
      size3d gradxyz1 = (shape0 xyz1, shape1 xyz1, 3) /\
      size3d gradxyz2 = (shape0 xyz2, shape1 xyz2, 3) /\
      size3d gradxyz1 <> size3d xyz1 /\
      size3d gradxyz2 <> size3d xyz2.
Proof.
  intros Hk1 Hk2 Hfwd.
  destruct (forward_saves_padded _ _ _ Hfwd)
    as [p1 [p2 [idx1 [idx2 [Hpad Hsaved]]]]].
  exists p1, p2, idx1, idx2.
  assert (Hsz : size3d p1 = (shape0 xyz1, shape1 xyz1, 3) /\
                size3d p2 = (shape0 xyz2, shape1 xyz2, 3)).
  { unfold pad_inputs in Hpad. rewrite Hk1 in Hpad. simpl Nat.eqb in Hpad.
    cbv iota in Hpad.
    destruct (cat_dim2 xyz1 _) as [e | q1] eqn:C1; [discriminate |].
    destruct (cat_dim2 xyz2 _) as [e | q2] eqn:C2; [discriminate |].
    inversion Hpad; subst q1 q2.
    apply cat_dim2_size in C1. apply cat_dim2_size in C2.
    rewrite C1, C2, Hk1, Hk2. split; reflexivity. }
  destruct Hsz as [Hsz1 Hsz2].
  repeat (split; [assumption |]).
  intros graddist1 graddist2.
  destruct (backward_sizes ctx' graddist1 graddist2 Hsaved)
    as [g1 [g2 [Hbwd [Hg1 Hg2]]]].
  exists g1, g2. rewrite Hg1, Hg2, Hsz1, Hsz2.
  repeat (split; [first [assumption | reflexivity] |]).
  split; rewrite size3d_eta; [rewrite Hk1 | rewrite Hk2];
    intros E; inversion E.
Qed.
End Backward.

(** One batch of 2-D points through the stand-in kernels. *)
Lemma backward_gradients_are_padded_witness :
  (shape2 Standin.cloud_a = 2 /\ shape2 Standin.cloud_b = 2) /\
  exists ctx' out,
    Standin.forward Standin.no_context Standin.cloud_a Standin.cloud_b
      = inr (ctx', out) /\
    exists p1 p2 idx1 idx2,
      pad_inputs Standin.cloud_a Standin.cloud_b = inr (p1, p2) /\
      saved_tensors ctx' = Some (p1, p2, idx1, idx2) /\
      size3d p1 = (1, 2, 3) /\
      size3d p2 = (1, 1, 3) /\
      forall graddist1 graddist2,
      exists gradxyz1 gradxyz2,
        Standin.backward ctx' graddist1 graddist2
          = inr (gradxyz1, gradxyz2) /\
        size3d gradxyz1 = (1, 2, 3) /\
        size3d gradxyz2 = (1, 1, 3) /\
        size3d gradxyz1 <> size3d Standin.cloud_a /\
        size3d gradxyz2 <> size3d Standin.cloud_b.
Proof.
  split; [split; reflexivity |].
  destruct (Standin.forward Standin.no_context Standin.cloud_a
                            Standin.cloud_b) as [e | [ctx' out]] eqn:Hfwd;
    [vm_compute in Hfwd; discriminate Hfwd |].
  exists ctx', out. split; [reflexivity |].
  exact (@backward_gradients_are_padded float _
           Standin.forward_kernel Standin.forward_kernel
           Standin.backward_kernel Standin.backward_kernel
           Standin.no_context Standin.cloud_a Standin.cloud_b ctx' out
           eq_refl eq_refl Hfwd).
Defined.

(** That run: the saved first tensor is the embedding of the input. *)
Example forward_saves_embedding :
  exists ctx' out idx1 idx2,
    Standin.forward Standin.no_context Standin.cloud_a Standin.cloud_b
      = inr (ctx', out) /\
    saved_tensors ctx' =
      Some (embed3 Standin.cloud_a, embed3 Standin.cloud_b, idx1, idx2) /\
    data3d (embed3 Standin.cloud_a) = [[[0; 0; 0]; [1; 2; 0]]]%float.
Proof. do 4 eexists. vm_compute. repeat split. Qed.
End ChamferFacts.

(** ** Entries of square matrices *)

Section NthMap.
Context {A B : Type}.

Lemma nth_map_lt (f : A -> B) (l : list A) (i : nat) (d : A) (d' : B) :
  i < length l -> nth i (map f l) d' = f (nth i l d).
Proof.
  intros Hi. rewrite (nth_indep _ d' (f d)) by (rewrite length_map; exact Hi).
  apply map_nth.
Qed.
End NthMap.

Section NthFacts.
Context {A B C : Type}.

Lemma nth_map_seq (f : nat -> B) (n i : nat) (d' : B) :
  i < n -> nth i (map f (seq 0 n)) d' = f i.
Proof.
  intros Hi. rewrite (nth_map_lt f _ 0) by (rewrite length_seq; exact Hi).
  rewrite seq_nth by exact Hi. reflexivity.
Qed.

Lemma nth_combine (u : list A) (v : list B) (i : nat) (da : A) (db : B) :
  i < length u -> i < length v ->
  nth i (combine u v) (da, db) = (nth i u da, nth i v db).
Proof.
  revert v i. induction u as [| x u IH]; intros v i Hu Hv.
  - simpl in Hu. lia.
  - destruct v as [| y v]; [simpl in Hv; lia |].
    destruct i as [| i]; [reflexivity |].
    simpl in *. apply IH; lia.
Qed.

Lemma nth_zip_with (f : A -> B -> C) (u : list A) (v : list B)
      (i : nat) (da : A) (db : B) (dc : C) :
  i < length u -> i < length v ->
  nth i (zip_with f u v) dc = f (nth i u da) (nth i v db).
Proof.
  intros Hu Hv. unfold zip_with.
  rewrite (nth_map_lt _ _ (da, db)) by (rewrite length_combine; lia).
  rewrite nth_combine by assumption. reflexivity.
Qed.
End NthFacts.

Section MatrixFacts.
Context {F : Type} `{Scalar F}.

Lemma square_row n (a : matrix F) i :
  square n a -> i < n -> length (nth i a []) = n.
Proof.
  intros [Hr Hc] Hi. rewrite Forall_forall in Hc. apply Hc.
  apply nth_In. unfold nrows in Hr. lia.
Qed.

(** Square matrices with the same entries are the same. *)
Lemma matrix_ext n (a b : matrix F) :
  square n a -> square n b ->
  (forall i j, i < n -> j < n -> entry a i j = entry b i j) ->
  a = b.
Proof.
  intros Ha Hb Hent.
  assert (Hla : length a = n) by apply Ha.
  assert (Hlb : length b = n) by apply Hb.
  apply (nth_ext a b [] []); [congruence |].
  intros i Hi. rewrite Hla in Hi.
  apply (nth_ext _ _ fzero fzero).
  - rewrite (square_row Ha Hi), (square_row Hb Hi). reflexivity.
  - intros j Hj. rewrite (square_row Ha Hi) in Hj. apply Hent; assumption.
Qed.

Lemma column_length j (a : matrix F) : length (column j a) = length a.
Proof. unfold column. apply length_map. Qed.

Lemma transpose_square n (a : matrix F) :
  square n a -> square n (transpose a).
Proof.
  intros Ha. unfold transpose. rewrite (square_ncols Ha). split.
  - unfold nrows. rewrite length_map, length_seq. reflexivity.
  - apply Forall_forall. intros r Hr. apply in_map_iff in Hr as [j [<- _]].
    rewrite column_length. apply Ha.
Qed.

Lemma nth_transpose n (a : matrix F) i :
  square n a -> i < n -> nth i (transpose a) [] = column i a.
Proof.
  intros Ha Hi. unfold transpose. rewrite (square_ncols Ha).
  apply (nth_map_seq (fun j => column j a)). exact Hi.
Qed.

Lemma nth_column n (a : matrix F) i j :
  square n a -> j < n -> nth j (column i a) fzero = entry a j i.
Proof.
  intros Ha Hj. unfold column, entry.
  apply (nth_map_lt (fun r => nth i r fzero) a []).
  destruct Ha as [Hr _]. unfold nrows in Hr. lia.
Qed.

Lemma entry_transpose n (a : matrix F) i j :
  square n a -> i < n -> j < n -> entry (transpose a) i j = entry a j i.
Proof.
  intros Ha Hi Hj. unfold entry at 1. rewrite (nth_transpose Ha Hi).
  apply (nth_column i Ha Hj).
Qed.

Lemma transpose_involutive n (a : matrix F) :
  square n a -> transpose (transpose a) = a.
Proof.
  intros Ha. apply (matrix_ext (n := n)).
  - apply transpose_square, transpose_square, Ha.
  - exact Ha.
  - intros i j Hi Hj.
    rewrite (entry_transpose (transpose_square Ha) Hi Hj).
    apply (entry_transpose Ha Hj Hi).
Qed.

(** A row of a symmetric matrix is the column of the same index. *)
Lemma symmetric_row n (a : matrix F) i :
  square n a -> symmetric a -> i < n -> nth i a [] = column i a.
Proof.
  intros Ha Hsym Hi. rewrite <- Hsym at 1. apply (nth_transpose Ha Hi).
Qed.

Lemma dot_spec n (a b c : matrix F) :
  square n a -> square n b -> dot a b = Some c ->
  square n c /\
  forall i j, i < n -> j < n ->
              entry c i j = vdot (nth i a []) (column j b).
Proof.
  intros Ha Hb. unfold dot. rewrite (square_ncols Ha), (square_ncols Hb).
  destruct Hb as [Hrb Hcb]. rewrite Hrb, Nat.eqb_refl.
  intros E. injection E as <-. split.
  - split.
    + unfold nrows. rewrite length_map. apply Ha.
    + apply Forall_forall. intros r Hr. apply in_map_iff in Hr as [r0 [<- _]].
      rewrite length_map, length_seq. reflexivity.
  - intros i j Hi Hj. unfold entry.
    rewrite (nth_map_lt _ a []) by (destruct Ha as [Hra _]; unfold nrows in Hra; lia).
    apply (nth_map_seq (fun j => vdot (nth i a []) (column j b))). exact Hj.
Qed.
End MatrixFacts.

Section EntryFacts.
Context {F : Type} `{Scalar F}.

Lemma entry_eye n i j :
  i < n -> j < n -> entry (eye n) i j = if i =? j then fone else fzero.
Proof.
  intros Hi Hj. unfold entry, eye.
  rewrite (nth_map_seq
             (fun i => map (fun j => if i =? j then fone else fzero) (seq 0 n))
             [] Hi).
  apply (nth_map_seq (fun j => if i =? j then fone else fzero)). exact Hj.
Qed.

Lemma entry_mscale n (a : matrix F) c i j :
  square n a -> i < n -> j < n ->
  entry (mscale a c) i j = fmul (entry a i j) c.
Proof.
  intros Ha Hi Hj. unfold entry, mscale.
  rewrite (nth_map_lt _ a []) by (destruct Ha as [Hr _]; unfold nrows in Hr; lia).
  apply (nth_map_lt (fun x => fmul x c)).
  rewrite (square_row Ha Hi). exact Hj.
Qed.

Lemma entry_madd n (a b : matrix F) i j :
  square n a -> square n b -> i < n -> j < n ->
  entry (madd a b) i j = fadd (entry a i j) (entry b i j).
Proof.
  intros Ha Hb Hi Hj. unfold entry, madd.
  rewrite (nth_zip_with (zip_with fadd) a b [] [])
    by (destruct Ha as [Hra _], Hb as [Hrb _]; unfold nrows in *; lia).
  apply nth_zip_with.
  - rewrite (square_row Ha Hi). exact Hj.
  - rewrite (square_row Hb Hi). exact Hj.
Qed.

Lemma symmetric_entry n (a : matrix F) i j :
  square n a -> symmetric a -> i < n -> j < n -> entry a i j = entry a j i.
Proof.
  intros Ha Hsym Hi Hj. rewrite <- Hsym at 1.
  apply (entry_transpose Ha Hi Hj).
Qed.

(** Adding [eps] to the diagonal keeps a matrix symmetric. *)
Lemma regularized_symmetric n (a : matrix F) eps :
  square n a -> symmetric a -> symmetric (madd a (mscale (eye n) eps)).
Proof.
  intros Ha Hsym. unfold symmetric.
  pose proof (regularized_square eps Ha) as Hreg.
  apply (matrix_ext (transpose_square Hreg) Hreg).
  intros i j Hi Hj. rewrite (entry_transpose Hreg Hi Hj).
  pose proof (mscale_square eps (eye_square n)) as Hoff.
  rewrite (entry_madd Ha Hoff Hj Hi), (entry_madd Ha Hoff Hi Hj).
  rewrite (entry_mscale eps (eye_square n) Hj Hi).
  rewrite (entry_mscale eps (eye_square n) Hi Hj).
  rewrite (entry_eye Hj Hi), (entry_eye Hi Hj), (Nat.eqb_sym j i).
  rewrite (symmetric_entry Ha Hsym Hj Hi). reflexivity.
Qed.

Lemma all_finite_entries n (a : matrix F) :
  square n a ->
  (all_finite_matrix a = true <->
   forall i j, i < n -> j < n -> fisfinite (entry a i j) = true).
Proof.
  intros Ha. unfold all_finite_matrix. rewrite forallb_forall. split.
  - intros Hall i j Hi Hj.
    assert (Hin : In (nth i a []) a).
    { apply nth_In. destruct Ha as [Hr _]. unfold nrows in Hr. lia. }
    specialize (Hall _ Hin). rewrite forallb_forall in Hall. apply Hall.
    unfold entry. apply nth_In. rewrite (square_row Ha Hi). exact Hj.
  - intros Hent r Hr. rewrite forallb_forall. intros x Hx.
    destruct (In_nth _ _ [] Hr) as [i [Hi Ei]].
    destruct (In_nth _ _ fzero Hx) as [j [Hj Ej]].
    assert (Hi' : i < n) by (destruct Ha as [Hra _]; unfold nrows in Hra; lia).
    assert (Hj' : j < n).
    { rewrite <- Ei, (square_row Ha Hi') in Hj. exact Hj. }
    rewrite <- Ej, <- Ei. apply (Hent i j Hi' Hj').
Qed.

Lemma all_finite_transpose n (a : matrix F) :
  square n a -> all_finite_matrix (transpose a) = all_finite_matrix a.
Proof.
  intros Ha. apply eq_true_iff_eq.
  rewrite (all_finite_entries (transpose_square Ha)), (all_finite_entries Ha).
  split; intros Hent i j Hi Hj.
  - rewrite <- (entry_transpose Ha Hj Hi). apply Hent; assumption.
  - rewrite (entry_transpose Ha Hi Hj). apply Hent; assumption.
Qed.

Lemma diagonal_transpose n (a : matrix F) :
  square n a -> diagonal (transpose a) = diagonal a.
Proof.
  intros Ha. unfold diagonal.
  pose proof (transpose_square Ha) as Ht.
  rewrite (square_ncols Ha), (square_ncols Ht).
  destruct Ha as [Hr Hc]. destruct Ht as [Hrt Hct]. rewrite Hr, Hrt.
  apply map_ext_in. intros i Hi. apply in_seq in Hi.
  rewrite Nat.min_id in Hi.
  apply (entry_transpose (n := n)); [split; assumption | lia | lia].
Qed.

Lemma isfinite_all_ctranspose n (r : ndarray F) :
  csquare n r -> isfinite_all (ctranspose r) = isfinite_all r.
Proof.
  destruct r as [re | re im]; simpl.
  - apply all_finite_transpose.
  - intros [Hre Him].
    rewrite (all_finite_transpose Hre), (all_finite_transpose Him).
    reflexivity.
Qed.
End EntryFacts.

(** ** Swapping the two summaries *)

Section FrechetSymmetry.
Context {F : Type} `{Scalar F}.
Variable sqrtm : matrix F -> option (ndarray F).

(** The two laws of arithmetic the argument uses; both hold of float64
    ([Float64Facts.float_mul_comm], [Float64Facts.float_sub_square]).
    No law of addition is assumed. *)
Hypothesis fmul_comm : forall a b : F, fmul a b = fmul b a.
Hypothesis fsub_square :
  forall a b : F, fmul (fsub a b) (fsub a b) = fmul (fsub b a) (fsub b a).

(** The principal root of a transpose is the transpose of the root, and
    a root has the shape of its argument. *)
Hypothesis sqrtm_transpose :
  forall n a, square n a ->
              sqrtm (transpose a) = option_map ctranspose (sqrtm a).
Hypothesis sqrtm_square :
  forall n a r, square n a -> sqrtm a = Some r -> csquare n r.

Lemma zip_with_comm {A B} (f : A -> A -> B) (u v : list A) :
  (forall x y, f x y = f y x) -> zip_with f u v = zip_with f v u.
Proof.
  intros Hf. revert v. induction u as [| x u IH]; intros [| y v];
    try reflexivity.
  rewrite !zip_with_cons, Hf, IH. reflexivity.
Qed.

Lemma vdot_comm (u v : vector F) : vdot u v = vdot v u.
Proof. unfold vdot. rewrite (zip_with_comm fmul u v fmul_comm). reflexivity. Qed.

Lemma squared_difference_swap (u v : vector F) :
  vdot (vsub u v) (vsub u v) = vdot (vsub v u) (vsub v u).
Proof.
  unfold vdot, vsub. f_equal. revert v.
  induction u as [| x u IH]; intros [| y v]; try reflexivity.
  rewrite !zip_with_cons, fsub_square, IH. reflexivity.
Qed.

(** For symmetric factors, the product the other way round is the
    transpose, entry by entry and with the same order of summation. *)
Lemma dot_swap n (s1 s2 prod : matrix F) :
  square n s1 -> square n s2 -> symmetric s1 -> symmetric s2 ->
  dot s1 s2 = Some prod -> dot s2 s1 = Some (transpose prod).
Proof.
  intros H1 H2 Hy1 Hy2 Hd.
  destruct (dot_square H2 H1) as [prod' Hd'].
  destruct (dot_spec H1 H2 Hd) as [Hsq Hent].
  destruct (dot_spec H2 H1 Hd') as [Hsq' Hent'].
  rewrite Hd'. f_equal.
  apply (matrix_ext Hsq' (transpose_square Hsq)).
  intros i j Hi Hj.
  rewrite (entry_transpose Hsq Hi Hj), (Hent' i j Hi Hj), (Hent j i Hj Hi).
  rewrite (symmetric_row H2 Hy2 Hi), <- (symmetric_row H1 Hy1 Hj).
  apply vdot_comm.
Qed.

Lemma trace_transpose n (a : matrix F) :
  square n a -> trace (transpose a) = trace a.
Proof. intros Ha. unfold trace. rewrite (diagonal_transpose Ha). reflexivity. Qed.

(** Lines 201-210 end alike on a root and on its transpose, up to the
    order of the two trace additions. *)
Lemma ends_on_swap n (d1 d2 : vector F) (s1 s2 : matrix F)
      (r : ndarray F) (o1 o2 : exn F + F) :
  csquare n r -> vdot d1 d1 = vdot d2 d2 ->
  ends_on d1 s1 s2 r o1 -> ends_on d2 s2 s1 (ctranspose r) o2 ->
  swapped_results (vdot d1 d1) (trace s1) (trace s2) o1 o2.
Proof.
  intros Hsq Hd [Hbad1 Hok1] [Hbad2 Hok2].
  destruct r as [re | re im]; cbn [csquare ctranspose iscomplexobj imag real]
    in *.
  - rewrite (Hok1 (or_introl eq_refl)), (Hok2 (or_introl eq_refl)).
    exists (trace re). unfold frechet_formula.
    rewrite <- Hd, (trace_transpose Hsq). split; reflexivity.
  - destruct Hsq as [Hre Him].
    rewrite (diagonal_transpose Him) in Hbad2, Hok2.
    destruct (allclose_zero (diagonal im)).
    + rewrite (Hok1 (or_intror eq_refl)), (Hok2 (or_intror eq_refl)).
      exists (trace re). unfold frechet_formula.
      rewrite <- Hd, (trace_transpose Hre). split; reflexivity.
    + rewrite (Hbad1 (conj eq_refl eq_refl)), (Hbad2 (conj eq_refl eq_refl)).
      exact I.
Qed.

Lemma finish_swap n (d1 d2 : vector F) (s1 s2 : matrix F) (r : ndarray F) :
  csquare n r -> vdot d1 d1 = vdot d2 d2 ->
  swapped_results (vdot d1 d1) (trace s1) (trace s2)
                  (outcome (finish d1 s1 s2 r))
                  (outcome (finish d2 s2 s1 (ctranspose r))).
Proof.
  intros Hsq Hd.
  eapply ends_on_swap; [exact Hsq | exact Hd | apply finish_ends_on ..].
Qed.

Lemma swapped_results_same (d t1 t2 : F) (o1 o2 : exn F + F) :
  swapped_results d t1 t2 o1 o2 ->
  fadd (fadd d t1) t2 = fadd (fadd d t2) t1 ->
  same_result o1 o2.
Proof.
  intros Hswap E. destruct o1 as [e1 | a], o2 as [e2 | b]; try exact Hswap.
  destruct Hswap as [c [-> ->]]. simpl. rewrite E. reflexivity.
Qed.

(** C4, as the code has it: for summaries with symmetric covariances of
    one size, and a square-root routine that commutes with
    transposition, the two orders of the arguments both raise, or they
    return [((d + t1) + t2) - 2 * c] and [((d + t2) + t1) - 2 * c] with
    the same squared distance [d] of the means, the same traces [t1],
    [t2] and the same trace [c] of the root: the results differ only by
    the order in which the two traces are added.  They are equal
    wherever that order does not matter, as in exact arithmetic. *)
Theorem frechet_swap_reorders_traces (n : nat)
        (mu1 : mean_like F) (sigma1 : cov_like F)
        (mu2 : mean_like F) (sigma2 : cov_like F) (eps : F) :
  square n (atleast_2d sigma1) -> square n (atleast_2d sigma2) ->
  symmetric (atleast_2d sigma1) -> symmetric (atleast_2d sigma2) ->
  let o1 :=
    outcome (calculate_frechet_distance sqrtm mu1 sigma1 mu2 sigma2 eps) in
  let o2 :=
    outcome (calculate_frechet_distance sqrtm mu2 sigma2 mu1 sigma1 eps) in
  let diff := vsub (atleast_1d mu1) (atleast_1d mu2) in
  let d := vdot diff diff in
  let t1 := trace (atleast_2d sigma1) in
  let t2 := trace (atleast_2d sigma2) in
  swapped_results d t1 t2 o1 o2 /\
  (fadd (fadd d t1) t2 = fadd (fadd d t2) t1 -> same_result o1 o2).
Proof.
  intros H1 H2 Hy1 Hy2. cbv zeta.
  match goal with |- ?P /\ _ => assert (Hswap : P) end.
  { destruct (Nat.eq_dec (vshape (atleast_1d mu1)) (vshape (atleast_1d mu2)))
      as [Hmu | Hmu].
    - destruct (frechet_run_cases sqrtm mu1 sigma1 mu2 sigma2 eps Hmu H1 H2)
        as [prod [prod2 [Hd [Hd2 Hrun]]]].
      destruct (frechet_run_cases sqrtm mu2 sigma2 mu1 sigma1 eps
                                  (eq_sym Hmu) H2 H1)
        as [prod' [prod2' [Hd' [Hd2' Hrun']]]].
      rewrite (dot_swap H1 H2 Hy1 Hy2 Hd) in Hd'. injection Hd' as <-.
      rewrite (dot_swap (regularized_square eps H1)
                 (regularized_square eps H2)
                 (regularized_symmetric eps H1 Hy1)
                 (regularized_symmetric eps H2 Hy2) Hd2) in Hd2'.
      injection Hd2' as <-.
      destruct (dot_spec H1 H2 Hd) as [Hsq _].
      destruct (dot_spec (regularized_square eps H1)
                         (regularized_square eps H2) Hd2) as [Hsq2 _].
      rewrite (sqrtm_transpose Hsq) in Hrun'.
      rewrite (sqrtm_transpose Hsq2) in Hrun'.
      pose proof (squared_difference_swap (atleast_1d mu1) (atleast_1d mu2))
        as Hdiff.
      rewrite Hrun, Hrun'. clear Hrun Hrun'.
      destruct (sqrtm prod) as [r1 |] eqn:E1; simpl option_map; cbv iota;
        [| exact I].
      pose proof (sqrtm_square Hsq E1) as Hr1.
      rewrite (isfinite_all_ctranspose n r1 Hr1).
      destruct (isfinite_all r1); cbn [outcome snd].
      + eapply finish_swap; eassumption.
      + destruct (sqrtm prod2) as [r2 |] eqn:E2; simpl option_map; cbv iota;
          cbn [outcome snd]; [| exact I].
        pose proof (sqrtm_square Hsq2 E2) as Hr2.
        eapply finish_swap; eassumption.
    - unfold calculate_frechet_distance.
      apply Nat.eqb_neq in Hmu. rewrite Hmu, Nat.eqb_sym, Hmu. exact I. }
  split; [exact Hswap |].
  intros E. eapply swapped_results_same; eassumption.
Qed.
End FrechetSymmetry.

Section SymmetryRuns.

Lemma identity2_square : square 2 (atleast_2d (CovMatrix Exact.identity2)).
Proof. split; [reflexivity |]. repeat constructor. Qed.

(** Over the rationals, means (0, 0) and (3, 4) with identity
    covariances: both orders return 25 = 3^2 + 4^2 + 2 + 2 - 2 * 2. *)
Example frechet_swap_rational_run :
  Exact.returned
    (outcome (calculate_frechet_distance Exact.sqrtm_idempotent
                (MeanVector [0; 0]%Qc) (CovMatrix Exact.identity2)
                (MeanVector [Q2Qc 3; Q2Qc 4]) (CovMatrix Exact.identity2)
                eps_default)) = Some (25 # 1)%Q /\
  Exact.returned
    (outcome (calculate_frechet_distance Exact.sqrtm_idempotent
                (MeanVector [Q2Qc 3; Q2Qc 4]) (CovMatrix Exact.identity2)
                (MeanVector [0; 0]%Qc) (CovMatrix Exact.identity2)
                eps_default)) = Some (25 # 1)%Q.
Proof. split; vm_compute; reflexivity. Qed.

Local Open Scope float_scope.

(** C4 as stated fails in float64: with means 1 and 0 and variances 0.1
    and 3.6 (the nearest doubles), one order adds (1 + 0.1) + 3.6 and
    returns 3.5, the other adds (1 + 3.6) + 0.1 and returns
    3.499999999999999. *)
Lemma frechet_not_symmetric_float64 :
  outcome (Float64.frechet_1d 1 0x1.999999999999ap-4 0 0x1.ccccccccccccdp+1)
    = inr 0x1.cp+1 /\
  outcome (Float64.frechet_1d 0 0x1.ccccccccccccdp+1 1 0x1.999999999999ap-4)
    = inr 0x1.bfffffffffffep+1 /\
  (0x1.cp+1 =? 0x1.bfffffffffffep+1) = false.
Proof. repeat split; vm_compute; reflexivity. Qed.

(** [Float64.sqrtm_1x1] commutes with transposition and keeps the
    shape. *)
Lemma sqrtm_1x1_transpose n (a : matrix float) :
  square n a ->
  Float64.sqrtm_1x1 (transpose a)
  = option_map ctranspose (Float64.sqrtm_1x1 a).
Proof.
  intros [Hr Hc]. destruct a as [| r1 [| r2 rest]].
  - reflexivity.
  - cbn [nrows length] in Hr. subst n.
    inversion Hc as [| ? ? Hlen _]; subst.
    destruct r1 as [| x [| y r1]]; try discriminate Hlen.
    change (transpose [[x]]) with [[x]]. cbn [Float64.sqrtm_1x1].
    destruct (negb (Float64.isfinite x)); [reflexivity |].
    destruct (0 <=? x); reflexivity.
  - cbn [nrows length] in Hr. subst n.
    inversion Hc as [| ? ? Hlen _]; subst.
    destruct r1 as [| x [| y r1]]; try discriminate Hlen.
    reflexivity.
Qed.

Lemma sqrtm_1x1_square n (a : matrix float) (r : ndarray float) :
  square n a -> Float64.sqrtm_1x1 a = Some r -> csquare n r.
Proof.
  intros [Hr Hc] E.
  destruct a as [| [| x [| y r1]] [| r2 rest]]; try discriminate E.
  cbn [nrows length] in Hr. subst n. cbn [Float64.sqrtm_1x1] in E.
  destruct (negb (Float64.isfinite x)); [discriminate E |].
  destruct (0 <=? x); injection E as <-;
    repeat split; repeat constructor.
Qed.

(** The inputs of [frechet_not_symmetric_float64]: the two results are
    the two orders of adding the traces 0.1 and 3.6 to the squared
    distance 1, less twice the same root. *)
Lemma frechet_swap_reorders_traces_witness :
  (square 1 (atleast_2d (CovScalar 0x1.999999999999ap-4)) /\
   square 1 (atleast_2d (CovScalar 0x1.ccccccccccccdp+1)) /\
   symmetric (atleast_2d (CovScalar 0x1.999999999999ap-4)) /\
   symmetric (atleast_2d (CovScalar 0x1.ccccccccccccdp+1))) /\
  exists c,
    outcome (Float64.frechet_1d 1 0x1.999999999999ap-4
                                0 0x1.ccccccccccccdp+1)
      = inr (((1 + 0x1.999999999999ap-4) + 0x1.ccccccccccccdp+1) - 2 * c) /\
    outcome (Float64.frechet_1d 0 0x1.ccccccccccccdp+1
                                1 0x1.999999999999ap-4)
      = inr (((1 + 0x1.ccccccccccccdp+1) + 0x1.999999999999ap-4) - 2 * c).
Proof.
  split.
  - split; [apply square_1x1 |]. split; [apply square_1x1 |].
    split; reflexivity.
  - destruct (@frechet_swap_reorders_traces float Float64.float64
                Float64.sqrtm_1x1
                Float64Facts.float_mul_comm Float64Facts.float_sub_square
                sqrtm_1x1_transpose sqrtm_1x1_square 1
                (MeanScalar 1) (CovScalar 0x1.999999999999ap-4)
                (MeanScalar 0) (CovScalar 0x1.ccccccccccccdp+1)
                eps_default
                (square_1x1 _) (square_1x1 _) eq_refl eq_refl)
      as [Hswap _].
    assert (E1 : outcome (calculate_frechet_distance Float64.sqrtm_1x1
                   (MeanScalar 1) (CovScalar 0x1.999999999999ap-4)
                   (MeanScalar 0) (CovScalar 0x1.ccccccccccccdp+1)
                   eps_default) = inr 0x1.cp+1)
      by (vm_compute; reflexivity).
    assert (E2 : outcome (calculate_frechet_distance Float64.sqrtm_1x1
                   (MeanScalar 0) (CovScalar 0x1.ccccccccccccdp+1)
                   (MeanScalar 1) (CovScalar 0x1.999999999999ap-4)
                   eps_default) = inr 0x1.bfffffffffffep+1)
      by (vm_compute; reflexivity).
    unfold Float64.frechet_1d. rewrite E1, E2 in *.
    destruct Hswap as [c [Ha Hb]]. exists c.
    vm_compute in Ha, Hb. vm_compute.
    split; f_equal; assumption.
Defined.
End SymmetryRuns.

(** ** The distance of a summary to itself, in exact arithmetic *)

Section SelfDistance.
Context {F : Type} `{Scalar F}.
Variable sqrtm : matrix F -> option (ndarray F).

Hypothesis fsub_self : forall a : F, fsub a a = fzero.
Hypothesis fmul_zero : fmul fzero fzero = fzero.
Hypothesis fadd_zero : forall a : F, fadd fzero a = a.
Hypothesis twice : forall a : F, fsub (fadd a a) (fmul ftwo a) = fzero.

Lemma sum_of_zeros (l : list F) :
  Forall (fun x => x = fzero) l -> np_sum l = fzero.
Proof.
  intros Hl. destruct Hl as [| x l -> Hl]; [reflexivity |]. simpl.
  induction Hl as [| y l -> Hl IH]; [reflexivity |].
  simpl. rewrite fadd_zero. exact IH.
Qed.

Lemma squared_difference_self (mu : vector F) :
  vdot (vsub mu mu) (vsub mu mu) = fzero.
Proof.
  unfold vdot, vsub. apply sum_of_zeros.
  induction mu as [| x mu IH]; [constructor |].
  rewrite !zip_with_cons. constructor; [| exact IH].
  rewrite fsub_self. exact fmul_zero.
Qed.

(** X8: without rounding, and with a root finder that answers [sigma]
    for [sigma.dot(sigma)], a summary is at distance 0 from itself: the
    call asks for one square root and returns exactly 0. *)
Lemma frechet_self_distance_exact (n : nat)
      (mu : mean_like F) (sigma : cov_like F) (eps : F) (prod : matrix F) :
  square n (atleast_2d sigma) ->
  dot (atleast_2d sigma) (atleast_2d sigma) = Some prod ->
  sqrtm prod = Some (RealArray (atleast_2d sigma)) ->
  all_finite_matrix (atleast_2d sigma) = true ->
  calculate_frechet_distance sqrtm mu sigma mu sigma eps
  = ([EvSqrtm prod], inr fzero).
Proof.
  intros Hsq Hd Hroot Hfin.
  rewrite (frechet_value_formula sqrtm mu sigma mu sigma eps
             eq_refl Hsq Hsq Hd Hroot Hfin (or_introl eq_refl)).
  simpl real. rewrite squared_difference_self, fadd_zero, twice.
  reflexivity.
Qed.
End SelfDistance.

(* ================================================================== *)
(** * Further properties of fid.py *)
(* ================================================================== *)

(** ** Runs of [get_activations] *)

Section ActivationRuns.
Context {F : Type} `{Scalar F}.
Variables (Model image : Type).
Variable getitem : list transform -> string -> image.
Variable run_model : Model -> list image -> tensor4 (F := F).
Variable spatial_mean : matrix F -> F.

(** The trace of a sequence: the first part's, then the second's if the
    first returned. *)
Lemma events_bind_split {A B} (c : M F A) (k : A -> M F B) :
  events (bind c k) =
  events c ++ match outcome c with
              | inr a => events (k a)
              | inl _ => []
              end.
Proof.
  destruct c as [tr [e | a]]; simpl.
  - rewrite app_nil_r. reflexivity.
  - destruct (k a). reflexivity.
Qed.

(** With a file and a positive batch size the call returns, and this is
    its trace and its value. *)
Lemma get_activations_run (files : list string) (model : Model)
      (normalize_rgb : bool) (batch_size target_size : nat) :
  files <> [] -> batch_size <> 0 ->
  let used := if length files <? batch_size then length files
              else batch_size in
  let transforms :=
    [ToTensor; Resize target_size] ++
    (if normalize_rgb then [Normalize [485; 456; 406] [229; 224; 225]]
     else []) in
  get_activations getitem run_model spatial_mean
                  files model normalize_rgb batch_size target_size =
    ((if length files <? batch_size then [EvPrint msg_batch []] else []) ++
     map (@EvModel F) (batches files used),
     inr (concat (map (batch_rows getitem run_model spatial_mean
                                  model transforms)
                      (batches files used)))).
Proof.
  intros Hfiles Hbs used transforms.
  assert (Hused : used <> 0).
  { unfold used. destruct (length files <? batch_size); [| exact Hbs].
    destruct files; [contradiction | discriminate]. }
  pose proof (batches_concat files Hused) as Hcat.
  assert (Hne : batches files used <> []).
  { intros E. rewrite E in Hcat. simpl in Hcat. apply Hfiles.
    symmetry. exact Hcat. }
  assert (Hrest :
    bind (DataLoader (F := F) files used)
         (fun dataloader =>
            bind (activations_loop getitem run_model spatial_mean
                                   model transforms dataloader [])
                 (fun pred_arr => np_concatenate pred_arr)) =
    (map (@EvModel F) (batches files used),
     inr (concat (map (batch_rows getitem run_model spatial_mean
                                  model transforms)
                      (batches files used))))).
  { unfold DataLoader. destruct (used =? 0) eqn:E0.
    - apply Nat.eqb_eq in E0. contradiction.
    - rewrite bind_ret, activations_loop_run. simpl app.
      unfold np_concatenate.
      destruct (batches files used) as [| b bs]; [contradiction |].
      simpl. rewrite app_nil_r. reflexivity. }
  unfold get_activations. fold transforms. unfold used in Hrest |- *.
  destruct (length files <? batch_size).
  - rewrite bind_assoc, emit_bind, bind_ret.
    cbn [events outcome fst snd]. rewrite Hrest. reflexivity.
  - rewrite bind_ret. rewrite Hrest. reflexivity.
Qed.

(** With no file, or with a requested batch size of 0, the loader
    refuses to be built. *)
Lemma get_activations_refused (files : list string)
      (model : Model) (normalize_rgb : bool)
      (batch_size target_size : nat) :
  files = [] \/ batch_size = 0 ->
  get_activations getitem run_model spatial_mean
                  files model normalize_rgb batch_size target_size =
    ((if length files <? batch_size then [EvPrint msg_batch []] else []),
     inl (ValueError "batch_size should be a positive integer value" [])).
Proof.
  intros [-> | ->]; unfold get_activations.
  - simpl length. destruct batch_size as [| b]; reflexivity.
  - replace (length files <? 0) with false
      by (symmetry; apply Nat.ltb_ge; lia).
    reflexivity.
Qed.











End ActivationRuns.

(** ** Runs of [calculate_frechet_distance] *)

Section FrechetTraces.
Context {F : Type} `{Scalar F}.
Variable sqrtm : matrix F -> option (ndarray F).

(** The traces [frechet_body] can leave. *)
Lemma frechet_body_traces mu1 sigma1 mu2 sigma2 eps :
  let ev := events (frechet_body sqrtm mu1 sigma1 mu2 sigma2 eps) in
  ev = [] \/
  (exists p, ev = [EvSqrtm p]) \/
  (exists p, ev = [EvSqrtm p; EvPrint msg_singular [eps]]) \/
  (exists p p2, ev = [EvSqrtm p; EvPrint msg_singular [eps]; EvSqrtm p2]).
Proof.
  cbv zeta. unfold frechet_body, np_dot.
  destruct (dot sigma1 sigma2) as [prod |]; [| left; reflexivity].
  rewrite bind_ret. right.
  destruct (sqrtm prod) as [r1 |] eqn:E1.
  - rewrite (call_sqrtm_some sqrtm _ E1). unfold regularize.
    destruct (isfinite_all r1); simpl negb; cbv iota.
    + left. exists prod. rewrite bind_ret. cbn [events fst].
      rewrite finish_silent. reflexivity.
    + right. unfold np_dot. rewrite !bind_assoc, emit_bind.
      cbn [events fst].
      destruct (dot _ _) as [prod2 |].
      * rewrite bind_ret. right. exists prod, prod2.
        destruct (sqrtm prod2) as [r2 |] eqn:E2.
        -- rewrite (call_sqrtm_some sqrtm _ E2). cbn [events fst].
           rewrite finish_silent. reflexivity.
        -- rewrite (call_sqrtm_none sqrtm _ E2). reflexivity.
      * left. exists prod. reflexivity.
  - left. exists prod. rewrite (call_sqrtm_none sqrtm _ E1). reflexivity.
Qed.

(** The traces a call can leave. *)
Lemma frechet_trace_cases
      (mu1 : mean_like F) (sigma1 : cov_like F)
      (mu2 : mean_like F) (sigma2 : cov_like F) (eps : F) :
  let ev := events (calculate_frechet_distance sqrtm mu1 sigma1 mu2 sigma2
                                               eps) in
  ev = [] \/
  (exists p, ev = [EvSqrtm p]) \/
  (exists p, ev = [EvSqrtm p; EvPrint msg_singular [eps]]) \/
  (exists p p2, ev = [EvSqrtm p; EvPrint msg_singular [eps]; EvSqrtm p2]).
Proof.
  cbv zeta. unfold calculate_frechet_distance.
  destruct (vshape (atleast_1d mu1) =? vshape (atleast_1d mu2));
    [| left; reflexivity].
  rewrite assert_true.
  destruct (shape_eqb (mshape (atleast_2d sigma1))
                      (mshape (atleast_2d sigma2)));
    [| left; reflexivity].
  rewrite assert_true. apply frechet_body_traces.
Qed.

(** X5: whatever the arguments and whatever [sqrtm] answers, [sqrtm] is
    called at most twice and the warning is printed at most once, never
    before a first call of [sqrtm]; nothing else is done to the
    outside. *)
Theorem frechet_distance_traces
        (mu1 : mean_like F) (sigma1 : cov_like F)
        (mu2 : mean_like F) (sigma2 : cov_like F) (eps : F) :
  let ev := events (calculate_frechet_distance sqrtm mu1 sigma1 mu2 sigma2
                                               eps) in
  length (sqrtm_calls ev) <= 2 /\
  (forall msg args, In (EvPrint msg args) ev ->
     msg = msg_singular /\ args = [eps] /\
     exists p rest, ev = EvSqrtm p :: EvPrint msg args :: rest /\
                    ~ In (EvPrint msg args) rest) /\
  Forall (fun e => match e with
                   | EvSqrtm _ | EvPrint _ _ => True
                   | _ => False
                   end) ev.
Proof.
  cbv zeta.
  destruct (frechet_trace_cases mu1 sigma1 mu2 sigma2 eps)
    as [-> | [[p ->] | [[p ->] | [p [p2 ->]]]]].
  - split; [simpl; lia |]. split; [intros ? ? [] | constructor].
  - split; [simpl; lia |]. split.
    + intros msg args [E | []]. discriminate E.
    + repeat constructor.
  - split; [simpl; lia |]. split.
    + intros msg args [E | [E | []]]; [discriminate E |].
      injection E as <- <-. split; [reflexivity |]. split; [reflexivity |].
      exists p, []. split; [reflexivity | intros []].
    + repeat constructor.
  - split; [simpl; lia |]. split.
    + intros msg args [E | [E | [E | []]]]; try discriminate E.
      injection E as <- <-. split; [reflexivity |]. split; [reflexivity |].
      exists p, [EvSqrtm p2]. split; [reflexivity |].
      intros [E | []]. discriminate E.
    + repeat constructor.
Qed.

(** X6: two covariances of one shape that is not square pass both
    assertions and are then refused by the matrix product, before any
    square root is asked for. *)
Theorem frechet_non_square_rejected (r c : nat)
        (mu1 : mean_like F) (sigma1 : cov_like F)
        (mu2 : mean_like F) (sigma2 : cov_like F) (eps : F) :
  vshape (atleast_1d mu1) = vshape (atleast_1d mu2) ->
  mshape (atleast_2d sigma1) = (r, c) ->
  mshape (atleast_2d sigma2) = (r, c) ->
  r <> c ->
  calculate_frechet_distance sqrtm mu1 sigma1 mu2 sigma2 eps
  = ([], inl (ValueError "shapes not aligned" [])).
Proof.
  intros Hmu Hs1 Hs2 Hrc. unfold calculate_frechet_distance.
  rewrite Hmu, Nat.eqb_refl, assert_true, Hs1, Hs2.
  replace (shape_eqb (r, c) (r, c)) with true
    by (symmetry; apply shape_eqb_eq; reflexivity).
  rewrite assert_true. unfold frechet_body, np_dot, dot.
  unfold mshape in Hs1, Hs2. injection Hs1 as Hr1 Hc1.
  injection Hs2 as Hr2 Hc2. rewrite Hc1, Hr2.
  replace (c =? r) with false
    by (symmetry; apply Nat.eqb_neq; intros E; apply Hrc; symmetry; exact E).
  reflexivity.
Qed.

(** X7: [eps] matters only to the second attempt: when [sqrtm] raises
    on [sigma1.dot(sigma2)], or answers with a root that is finite in
    every entry, the whole run (trace and result) is the same for every
    [eps]. *)
Theorem frechet_eps_unused_without_retry (n : nat)
        (mu1 : mean_like F) (sigma1 : cov_like F)
        (mu2 : mean_like F) (sigma2 : cov_like F) (eps eps' : F)
        (prod : matrix F) :
  vshape (atleast_1d mu1) = vshape (atleast_1d mu2) ->
  square n (atleast_2d sigma1) -> square n (atleast_2d sigma2) ->
  dot (atleast_2d sigma1) (atleast_2d sigma2) = Some prod ->
  sqrtm prod = None \/
  (exists r, sqrtm prod = Some r /\ isfinite_all r = true) ->
  calculate_frechet_distance sqrtm mu1 sigma1 mu2 sigma2 eps
  = calculate_frechet_distance sqrtm mu1 sigma1 mu2 sigma2 eps'.
Proof.
  intros Hmu Hs1 Hs2 Hd Hroot.
  destruct (frechet_run_cases sqrtm mu1 sigma1 mu2 sigma2 eps Hmu Hs1 Hs2)
    as [p [p2 [Hp [_ Hrun]]]].
  destruct (frechet_run_cases sqrtm mu1 sigma1 mu2 sigma2 eps' Hmu Hs1 Hs2)
    as [p' [p2' [Hp' [_ Hrun']]]].
  rewrite Hd in Hp, Hp'. injection Hp as <-. injection Hp' as <-.
  rewrite Hrun, Hrun'.
  destruct Hroot as [-> | [r [-> ->]]]; reflexivity.
Qed.
End FrechetTraces.

(** ** Runs of the entry points *)

Section EntryPoints.
Context {F : Type} `{Scalar F}.
Variable sqrtm : matrix F -> option (ndarray F).
Variables (Model image : Type).
Variable load_resnet : string -> list nat -> option nat -> Model.
Variable InceptionV3 : list nat -> Model.
Variable getitem : list transform -> string -> image.
Variable run_model : Model -> list image -> tensor4 (F := F).
Variable spatial_mean : matrix F -> F.
Variable np_mean_axis0 : matrix F -> vector F.
Variable np_cov : matrix F -> cov_like F.
Variable np_load : string -> mean_like F * cov_like F.

Lemma Forall_events_bind {A B} (P : event F -> Prop)
      (c : M F A) (k : A -> M F B) :
  Forall P (events c) ->
  (forall a, outcome c = inr a -> Forall P (events (k a))) ->
  Forall P (events (bind c k)).
Proof.
  intros Hc Hk. rewrite events_bind_split. apply Forall_app. split;
    [exact Hc |].
  destruct (outcome c) as [e | a]; [constructor | apply Hk; reflexivity].
Qed.

Lemma outcome_bind_cases {A B} (c : M F A) (k : A -> M F B) :
  outcome (bind c k) =
  match outcome c with
  | inl e => inl e
  | inr a => outcome (k a)
  end.
Proof.
  destruct c as [tr [e | a]]; simpl; [reflexivity |].
  destruct (k a). reflexivity.
Qed.

(** Extracting activations prints at most the warning and calls the
    model; it does nothing else to the outside. *)
Lemma get_activations_events (P : event F -> Prop)
      files model normalize_rgb batch_size target_size :
  P (EvPrint msg_batch []) -> (forall b, P (EvModel b)) ->
  Forall P (events (get_activations getitem run_model spatial_mean
                      files model normalize_rgb batch_size target_size)).
Proof.
  intros Hprint Hmodel.
  destruct (list_eq_dec string_dec files []) as [Hf | Hf];
    [| destruct (Nat.eq_dec batch_size 0) as [Hb | Hb]].
  - rewrite (get_activations_refused getitem run_model spatial_mean
               model normalize_rgb target_size (or_introl Hf)).
    cbn [events fst].
    destruct (length files <? batch_size); repeat constructor; assumption.
  - rewrite (get_activations_refused getitem run_model spatial_mean
               (files := files) model normalize_rgb target_size
               (or_intror Hb)).
    cbn [events fst].
    destruct (length files <? batch_size); repeat constructor; assumption.
  - rewrite (get_activations_run getitem run_model spatial_mean
               model normalize_rgb target_size Hf Hb).
    cbn [events fst]. apply Forall_app. split.
    + destruct (length files <? batch_size); repeat constructor; assumption.
    + apply Forall_map. apply Forall_forall. intros b _. apply Hmodel.
Qed.

Lemma statistics_events (P : event F -> Prop)
      paths model normalize_rgb batch_size :
  P (EvPrint msg_batch []) -> (forall b, P (EvModel b)) ->
  Forall P (events (compute_statistics_of_paths getitem run_model
                      spatial_mean np_mean_axis0 np_cov
                      paths model normalize_rgb batch_size)).
Proof.
  intros Hprint Hmodel.
  unfold compute_statistics_of_paths, calculate_activation_statistics.
  apply Forall_events_bind.
  - apply get_activations_events; assumption.
  - intros act _. constructor.
Qed.

(** The statistics are those of the activation matrix. *)
Lemma statistics_outcome paths model normalize_rgb batch_size :
  outcome (compute_statistics_of_paths getitem run_model spatial_mean
             np_mean_axis0 np_cov paths model normalize_rgb batch_size) =
  match outcome (get_activations getitem run_model spatial_mean
                   paths model normalize_rgb batch_size
                   default_target_size) with
  | inl e => inl e
  | inr act => inr (MeanVector (np_mean_axis0 act), np_cov act)
  end.
Proof.
  unfold compute_statistics_of_paths, calculate_activation_statistics.
  rewrite outcome_bind_cases.
  destruct (outcome (get_activations _ _ _ _ _ _ _ _)); reflexivity.
Qed.


(** What the tag chain does for a known tag. *)
Lemma select_extractor_valid (num_classes : option nat) (fid_type : string) :
  In fid_type valid_fid_types ->
  exists ev model flag,
    is_construction ev = true /\
    select_extractor (F := F) load_resnet InceptionV3 num_classes fid_type
      = ([ev], inr (model, flag)).
Proof.
  unfold valid_fid_types. simpl.
  intros [<- | [<- | [<- | [<- | []]]]]; do 3 eexists;
    (split; [| reflexivity]); reflexivity.
Qed.

Lemma filter_quiet (p : event F -> bool) (l : list (event F)) :
  Forall (fun e => p e = false) l -> filter p l = [].
Proof.
  intros Hq. induction Hq as [| e l He Hl IH]; [reflexivity |].
  simpl. rewrite He. exact IH.
Qed.
Lemma bind_single {A B} (ev : event F) (a : A) (k : A -> M F B) :
  bind (([ev], inr a) : M F A) k = (ev :: events (k a), outcome (k a)).
Proof. simpl. destruct (k a). reflexivity. Qed.




Lemma statistics_of_nothing model normalize_rgb batch_size :
  compute_statistics_of_paths getitem run_model spatial_mean np_mean_axis0
    np_cov [] model normalize_rgb batch_size
  = ((if 0 <? batch_size then [EvPrint msg_batch []] else []),
     inl (ValueError "batch_size should be a positive integer value" [])).
Proof.
  unfold compute_statistics_of_paths, calculate_activation_statistics.
  rewrite (get_activations_refused getitem run_model spatial_mean
             model normalize_rgb default_target_size (or_introl eq_refl)).
  reflexivity.
Qed.

(** X11: with a known tag and an empty first image set,
    [calculate_fid_given_paths] builds the extractor and then fails in
    the loader of the first set: the second set is never looked at, the
    model is never called and no square root is asked for. *)
Theorem calculate_fid_given_paths_empty_first_set
        (fid_type : string) (paths1 : list string) (batch_size : nat) :
  In fid_type valid_fid_types ->
  let run := calculate_fid_given_paths sqrtm load_resnet InceptionV3
               getitem run_model spatial_mean np_mean_axis0 np_cov
               ([], paths1) batch_size fid_type in
  outcome run
    = inl (ValueError "batch_size should be a positive integer value" []) /\
  model_calls (events run) = [] /\
  sqrtm_calls (events run) = [].
Proof.
  intros Hin run. unfold run.
  destruct (select_extractor_valid None Hin)
    as [ev [model [flag [Hev Hsel]]]].
  unfold calculate_fid_given_paths. rewrite Hsel, bind_single.
  rewrite statistics_of_nothing. cbn [events outcome fst snd bind].
  destruct ev; try discriminate Hev;
    destruct (0 <? batch_size); repeat split.
Qed.
Lemma sqrtm_calls_quiet (l : list (event F)) :
  Forall (fun e => match e with EvSqrtm _ => False | _ => True end) l ->
  sqrtm_calls l = [].
Proof.
  intros Hq. induction Hq as [| e l He Hl IH]; [reflexivity |].
  unfold sqrtm_calls in *. simpl. rewrite IH.
  destruct e; try reflexivity. contradiction.
Qed.

(** How [save_fid_stats] runs once the extractor is built. *)
Lemma save_fid_stats_run paths output batch_size fid_type ev model flag :
  select_extractor (F := F) load_resnet InceptionV3 (Some 40) fid_type
    = ([ev], inr (model, flag)) ->
  save_fid_stats load_resnet InceptionV3 getitem run_model spatial_mean
                 np_mean_axis0 np_cov paths output batch_size fid_type =
  match compute_statistics_of_paths getitem run_model spatial_mean
          np_mean_axis0 np_cov paths model flag batch_size with
  | (tr, inl e) => (ev :: tr, inl e)
  | (tr, inr ms) =>
      (ev :: tr ++ [EvPrint ("Saving FID stats to " ++ output)%string [];
                    EvSavez output (fst ms) (snd ms)],
       inr tt)
  end.
Proof.
  intros Hsel. unfold save_fid_stats. rewrite Hsel, bind_single.
  destruct (compute_statistics_of_paths _ _ _ _ _ _ _ _ _)
    as [tr [e | ms]]; reflexivity.
Qed.

(** X10: [save_fid_stats] never asks for a square root.  When it
    returns, it has written one archive, as its last action and right
    after announcing it, holding the mean and the covariance of the
    activation matrix of the given files; when it raises, it has
    written nothing. *)
Theorem save_fid_stats_writes_once
        (paths : list string) (output : string) (batch_size : nat)
        (fid_type : string) :
  let run := save_fid_stats load_resnet InceptionV3 getitem run_model
               spatial_mean np_mean_axis0 np_cov
               paths output batch_size fid_type in
  sqrtm_calls (events run) = [] /\
  match outcome run with
  | inr _ =>
      exists model flag act tr,
        outcome (select_extractor (F := F) load_resnet InceptionV3
                                  (Some 40) fid_type) = inr (model, flag) /\
        outcome (get_activations getitem run_model spatial_mean
                   paths model flag batch_size default_target_size)
          = inr act /\
        events run =
          tr ++ [EvPrint ("Saving FID stats to " ++ output)%string [];
                 EvSavez output (MeanVector (np_mean_axis0 act))
                         (np_cov act)] /\
        filter is_savez tr = []
  | inl _ => filter is_savez (events run) = []
  end.
Proof.
  cbv zeta.
  destruct (in_dec string_dec fid_type valid_fid_types) as [Hin | Hout].
  - destruct (select_extractor_valid (Some 40) Hin)
      as [ev [model [flag [Hev Hsel]]]].
    rewrite (save_fid_stats_run paths output batch_size _ Hsel).
    pose proof (statistics_events
                  (fun e => is_savez e = false /\
                            match e with EvSqrtm _ => False | _ => True end)
                  paths model flag batch_size
                  (conj eq_refl I) (fun b => conj eq_refl I)) as Hquiet.
    pose proof (statistics_outcome paths model flag batch_size) as Hout.
    destruct (compute_statistics_of_paths _ _ _ _ _ _ _ _ _)
      as [tr [e | ms]]; cbn [events outcome fst snd] in *.
    + split.
      * apply sqrtm_calls_quiet. constructor.
        -- destruct ev; try discriminate Hev; exact I.
        -- revert Hquiet. apply Forall_impl. intros e0 [_ Hs]. exact Hs.
      * simpl. destruct ev; try discriminate Hev; simpl;
          apply filter_quiet; revert Hquiet; apply Forall_impl;
          intros e0 [Hs _]; exact Hs.
    + split.
      * apply sqrtm_calls_quiet. constructor.
        -- destruct ev; try discriminate Hev; exact I.
        -- apply Forall_app. split; [| repeat constructor].
           revert Hquiet. apply Forall_impl. intros e0 [_ Hs]. exact Hs.
      * destruct (outcome (get_activations _ _ _ _ _ _ _ _))
          as [e | act] eqn:Eact; [discriminate Hout |].
        injection Hout as ->. exists model, flag, act, (ev :: tr).
        rewrite Hsel. split; [reflexivity |]. split; [exact Eact |].
        split; [reflexivity |].
        simpl. destruct ev; try discriminate Hev; simpl;
          apply filter_quiet; revert Hquiet; apply Forall_impl;
          intros e0 [Hs _]; exact Hs.
  - unfold save_fid_stats.
    rewrite (select_extractor_invalid load_resnet InceptionV3 _ Hout).
    split; reflexivity.
Qed.

(** The two tag chains build the same extractor when the tag is
    "sketch" or "vanilla", or when [load_resnet] does not look at its
    third argument. *)
Lemma select_extractor_agree (fid_type : string) :
  In fid_type valid_fid_types ->
  fid_type = "sketch"%string \/ fid_type = "vanilla"%string \/
  (forall path, load_resnet path [3] (Some 40) = load_resnet path [3] None) ->
  exists ev ev' model flag,
    select_extractor (F := F) load_resnet InceptionV3 None fid_type
      = ([ev], inr (model, flag)) /\
    select_extractor (F := F) load_resnet InceptionV3 (Some 40) fid_type
      = ([ev'], inr (model, flag)) /\
    is_savez ev' = false.
Proof.
  unfold valid_fid_types. simpl.
  intros [<- | [<- | [<- | [<- | []]]]] Hsame.
  - do 4 eexists. split; [reflexivity |]. split; reflexivity.
  - destruct Hsame as [E | [E | Hsame]]; try discriminate E.
    do 4 eexists. split; [reflexivity |]. split.
    + unfold select_extractor. simpl String.eqb. cbv iota.
      unfold construct_resnet. rewrite Hsame. reflexivity.
    + reflexivity.
  - destruct Hsame as [E | [E | Hsame]]; try discriminate E.
    do 4 eexists. split; [reflexivity |]. split.
    + unfold select_extractor. simpl String.eqb. cbv iota.
      unfold construct_resnet. rewrite Hsame. reflexivity.
    + reflexivity.
  - do 4 eexists. split; [reflexivity |]. split; reflexivity.
Qed.

(** X12: statistics saved by [save_fid_stats] and read back give, through
    [calculate_fid_given_npz_and_paths], the result
    [calculate_fid_given_paths] gives on the two image sets directly.
    This needs the two entry points to build the same extractor, which
    the code guarantees for the tags "sketch" and "vanilla" only: for
    the "cad" tags one passes 40 as third argument of [load_resnet] and
    the other passes nothing. *)
Theorem fid_from_saved_statistics
        (paths0 paths1 : list string) (output : string) (batch_size : nat)
        (fid_type : string) (mu : mean_like F) (sigma : cov_like F) :
  outcome (save_fid_stats load_resnet InceptionV3 getitem run_model
             spatial_mean np_mean_axis0 np_cov
             paths0 output batch_size fid_type) = inr tt ->
  In (EvSavez output mu sigma)
     (events (save_fid_stats load_resnet InceptionV3 getitem run_model
                spatial_mean np_mean_axis0 np_cov
                paths0 output batch_size fid_type)) ->
  np_load output = (mu, sigma) ->
  fid_type = "sketch"%string \/ fid_type = "vanilla"%string \/
  (forall path, load_resnet path [3] (Some 40) = load_resnet path [3] None) ->
  outcome (calculate_fid_given_npz_and_paths sqrtm load_resnet InceptionV3
             getitem run_model spatial_mean np_mean_axis0 np_cov np_load
             output paths1 batch_size fid_type)
  = outcome (calculate_fid_given_paths sqrtm load_resnet InceptionV3
               getitem run_model spatial_mean np_mean_axis0 np_cov
               (paths0, paths1) batch_size fid_type).
Proof.
  intros Hsave Hin Hload Hsame.
  destruct (in_dec string_dec fid_type valid_fid_types) as [Hval | Hout].
  - destruct (select_extractor_agree Hval Hsame)
      as [ev [ev' [model [flag [Hsel [Hsel' Hev']]]]]].
    rewrite (save_fid_stats_run paths0 output batch_size _ Hsel')
      in Hsave, Hin.
    pose proof (statistics_events (fun e => is_savez e = false)
                  paths0 model flag batch_size eq_refl
                  (fun b => eq_refl)) as Hquiet.
    unfold calculate_fid_given_npz_and_paths, calculate_fid_given_paths.
    rewrite Hsel, Hsel', !bind_single. cbn [outcome snd fst].
    rewrite emit_bind. cbn [outcome snd]. rewrite Hload.
    rewrite !outcome_bind_cases.
    destruct (compute_statistics_of_paths _ _ _ _ _ paths0 _ _ _)
      as [tr [e | ms]]; cbn [events outcome fst snd] in *;
      [discriminate Hsave |].
    assert (Ems : ms = (mu, sigma)).
    { destruct Hin as [E | Hin]; [rewrite E in Hev'; discriminate Hev' |].
      apply in_app_or in Hin. destruct Hin as [Hin | [E | [E | []]]].
      - rewrite Forall_forall in Hquiet. specialize (Hquiet _ Hin).
        discriminate Hquiet.
      - discriminate E.
      - injection E as E1 E2. destruct ms. simpl in *. congruence. }
    subst ms. cbn [fst snd]. rewrite ?outcome_bind_cases. reflexivity.
  - unfold save_fid_stats in Hsave.
    rewrite (select_extractor_invalid load_resnet InceptionV3 _ Hout)
      in Hsave.
    discriminate Hsave.
Qed.
End EntryPoints.

(* ================================================================== *)
(** * Further properties of chamfer_distance.py *)
(* ================================================================== *)

Module ChamferRuns.
Import Chamfer.

Section Runs.
Context {F : Type} `{Scalar F}.
Variable cd_forward cd_forward_cuda : forward_kernel (F := F).
Variable cd_backward cd_backward_cuda : backward_kernel (F := F).

(** The concatenation with [zeros(1, n, 1)] goes through exactly for a
    batch of one. *)
Lemma cat_zeros_cases (t : tensor3 F) (device : bool) :
  (shape0 t = 1 /\
   exists p, cat_dim2 t (to3 (zeros3 fzero 1 (shape1 t) 1) device) = inr p /\
             size3d p = (1, shape1 t, shape2 t + 1) /\
             is_cuda3 p = is_cuda3 t) \/
  (shape0 t <> 1 /\
   cat_dim2 t (to3 (zeros3 fzero 1 (shape1 t) 1) device)
   = inl (RuntimeError msg_cat)).
Proof.
  unfold cat_dim2.
  change (shape0 (to3 (zeros3 fzero 1 (shape1 t) 1) device)) with 1.
  change (shape1 (to3 (zeros3 fzero 1 (shape1 t) 1) device)) with (shape1 t).
  change (shape2 (to3 (zeros3 fzero 1 (shape1 t) 1) device)) with 1.
  rewrite Nat.eqb_refl, andb_true_r.
  destruct (shape0 t =? 1) eqn:E.
  - apply Nat.eqb_eq in E. left. split; [exact E |].
    eexists. split; [reflexivity |]. rewrite E. split; reflexivity.
  - apply Nat.eqb_neq in E. right. split; [exact E | reflexivity].
Qed.

(** What the padding does, when it goes through. *)
Lemma pad_inputs_returns (xyz1 xyz2 p1 p2 : tensor3 F) :
  pad_inputs xyz1 xyz2 = inr (p1, p2) ->
  is_cuda3 p1 = is_cuda3 xyz1 /\
  shape0 p1 = shape0 xyz1 /\ shape1 p1 = shape1 xyz1 /\
  shape0 p2 = shape0 xyz2 /\ shape1 p2 = shape1 xyz2 /\
  if shape2 xyz1 =? 2
  then shape0 xyz1 = 1 /\ shape0 xyz2 = 1 /\
       shape2 p1 = 3 /\ shape2 p2 = shape2 xyz2 + 1
  else p1 = xyz1 /\ p2 = xyz2.
Proof.
  unfold pad_inputs. destruct (shape2 xyz1 =? 2) eqn:Ek.
  - apply Nat.eqb_eq in Ek.
    destruct (cat_zeros_cases xyz1 (is_cuda3 xyz1))
      as [[Hb1 [q1 [-> [Hq1 Hc1]]]] | [_ ->]]; [| discriminate].
    destruct (cat_zeros_cases xyz2 (is_cuda3 xyz1))
      as [[Hb2 [q2 [-> [Hq2 Hc2]]]] | [_ ->]]; [| discriminate].
    intros E. injection E as <- <-.
    unfold shape0, shape1, shape2 in *. rewrite Hq1, Hq2. cbn [fst snd].
    rewrite Ek. repeat split; auto.
  - intros E. injection E as <- <-. repeat split.
Qed.

(** What the padding does, when it is refused. *)
Lemma pad_inputs_refused (xyz1 xyz2 : tensor3 F) e :
  pad_inputs xyz1 xyz2 = inl e ->
  e = RuntimeError msg_cat /\ shape2 xyz1 = 2 /\
  (shape0 xyz1 <> 1 \/ shape0 xyz2 <> 1).
Proof.
  unfold pad_inputs. destruct (shape2 xyz1 =? 2) eqn:Ek; [| discriminate].
  apply Nat.eqb_eq in Ek.
  destruct (cat_zeros_cases xyz1 (is_cuda3 xyz1))
    as [[Hb1 [q1 [-> _]]] | [Hb1 ->]].
  - destruct (cat_zeros_cases xyz2 (is_cuda3 xyz1))
      as [[Hb2 [q2 [-> _]]] | [Hb2 ->]]; [discriminate |].
    intros E. injection E as <-. auto.
  - intros E. injection E as <-. auto.
Qed.

(** The forward pass after the padding. *)
Lemma forward_after_padding ctx (xyz1 xyz2 p1 p2 : tensor3 F) :
  pad_inputs xyz1 xyz2 = inr (p1, p2) ->
  exists dist1 dist2 idx1 idx2,
    forward cd_forward cd_forward_cuda ctx xyz1 xyz2
      = inr ({| saved_tensors := Some (p1, p2, idx1, idx2) |},
             (dist1, dist2, idx1, idx2)) /\
    size2d dist1 = (shape0 p1, shape1 p1) /\
    size2d dist2 = (shape0 p1, shape1 p2) /\
    size2d idx1 = (shape0 p1, shape1 p1) /\
    size2d idx2 = (shape0 p1, shape1 p2) /\
    is_cuda2 dist1 = is_cuda3 xyz1 /\ is_cuda2 dist2 = is_cuda3 xyz1 /\
    is_cuda2 idx1 = is_cuda3 xyz1 /\ is_cuda2 idx2 = is_cuda3 xyz1.
Proof.
  intros Hpad. destruct (pad_inputs_returns _ _ Hpad) as [Hc _].
  unfold forward. rewrite Hpad, Hc.
  destruct (is_cuda3 xyz1) eqn:Ecuda; simpl negb; cbv iota.
  - destruct (cd_forward_cuda _ _ _ _ _ _) as [[[d1 d2] i1] i2].
    do 4 eexists. split; [reflexivity |]. repeat split.
  - destruct (cd_forward _ _ _ _ _ _) as [[[d1 d2] i1] i2].
    do 4 eexists. split; [reflexivity |]. repeat split.
Qed.

(** X13: on input whose first tensor has 2 coordinates, both tensors
    being on one device (the only case [cat_dim2] speaks about:
    [torch.cat] also refuses tensors on different devices), the forward
    pass returns exactly when both tensors have batch size 1; otherwise
    it raises the concatenation error of the padding. *)
Theorem forward_2d_returns_iff_batch_of_one ctx (xyz1 xyz2 : tensor3 F) :
  shape2 xyz1 = 2 ->
  is_cuda3 xyz2 = is_cuda3 xyz1 ->
  ((exists r, forward cd_forward cd_forward_cuda ctx xyz1 xyz2 = inr r)
   <-> shape0 xyz1 = 1 /\ shape0 xyz2 = 1) /\
  (forward cd_forward cd_forward_cuda ctx xyz1 xyz2
     = inl (RuntimeError msg_cat)
   <-> shape0 xyz1 <> 1 \/ shape0 xyz2 <> 1).
Proof.
  intros Hk _.
  destruct (pad_inputs xyz1 xyz2) as [e | [p1 p2]] eqn:Hpad.
  - destruct (pad_inputs_refused _ _ Hpad) as [-> [_ Hb]].
    assert (Efwd : forward cd_forward cd_forward_cuda ctx xyz1 xyz2
                   = inl (RuntimeError msg_cat)).
    { unfold forward. rewrite Hpad. reflexivity. }
    rewrite Efwd. split; split.
    + intros [r E]. discriminate E.
    + intros [H1 H2]. destruct Hb; contradiction.
    + intros _. exact Hb.
    + reflexivity.
  - destruct (pad_inputs_returns _ _ Hpad) as [_ [_ [_ [_ [_ Hcase]]]]].
    rewrite Hk in Hcase. simpl in Hcase. destruct Hcase as [H1 [H2 _]].
    destruct (forward_after_padding ctx _ _ Hpad)
      as [d1 [d2 [i1 [i2 [Efwd _]]]]].
    rewrite Efwd. split; split.
    + intros _. split; assumption.
    + intros _. eexists. reflexivity.
    + intros E. discriminate E.
    + intros [Hb | Hb]; contradiction.
Qed.

(** X14: whenever the forward pass returns, each of the four returned
    tensors has the batch size of the first input; [dist1] and [idx1]
    have one entry per point of the first input, [dist2] and [idx2] one
    per point of the second; and all four live on the device of the
    first input. *)
Theorem forward_output_sizes ctx (xyz1 xyz2 : tensor3 F) ctx'
        (dist1 dist2 : tensor2 F) (idx1 idx2 : tensor2 int) :
  forward cd_forward cd_forward_cuda ctx xyz1 xyz2
    = inr (ctx', (dist1, dist2, idx1, idx2)) ->
  size2d dist1 = (shape0 xyz1, shape1 xyz1) /\
  size2d dist2 = (shape0 xyz1, shape1 xyz2) /\
  size2d idx1 = (shape0 xyz1, shape1 xyz1) /\
  size2d idx2 = (shape0 xyz1, shape1 xyz2) /\
  is_cuda2 dist1 = is_cuda3 xyz1 /\ is_cuda2 dist2 = is_cuda3 xyz1 /\
  is_cuda2 idx1 = is_cuda3 xyz1 /\ is_cuda2 idx2 = is_cuda3 xyz1.
Proof.
  intros Hfwd.
  destruct (pad_inputs xyz1 xyz2) as [e | [p1 p2]] eqn:Hpad.
  - unfold forward in Hfwd. rewrite Hpad in Hfwd. discriminate Hfwd.
  - destruct (pad_inputs_returns _ _ Hpad)
      as [_ [Hb1 [Hn1 [_ [Hn2 _]]]]].
    destruct (forward_after_padding ctx _ _ Hpad)
      as [d1 [d2 [i1 [i2 [Efwd Hsizes]]]]].
    rewrite Efwd in Hfwd. injection Hfwd as _ <- <- <- <-.
    rewrite Hb1, Hn1, Hn2 in Hsizes. exact Hsizes.
Qed.

(** X15: whether the second tensor is padded is decided by the first
    tensor alone.  When the first has 2 coordinates, the second gets one
    more coordinate whatever it had (a 3-D second tensor is saved with
    4); when the first does not have 2, both are saved as they came,
    also a second tensor with 2 coordinates. *)
Theorem forward_padding_follows_first_input ctx (xyz1 xyz2 : tensor3 F)
        ctx' out :
  forward cd_forward cd_forward_cuda ctx xyz1 xyz2 = inr (ctx', out) ->
  exists p1 p2 idx1 idx2,
    saved_tensors ctx' = Some (p1, p2, idx1, idx2) /\
    (shape2 xyz1 = 2 ->
     shape2 p1 = 3 /\ shape2 p2 = shape2 xyz2 + 1) /\
    (shape2 xyz1 <> 2 -> p1 = xyz1 /\ p2 = xyz2).
Proof.
  intros Hfwd.
  destruct (pad_inputs xyz1 xyz2) as [e | [p1 p2]] eqn:Hpad.
  - unfold forward in Hfwd. rewrite Hpad in Hfwd. discriminate Hfwd.
  - destruct (pad_inputs_returns _ _ Hpad) as [_ [_ [_ [_ [_ Hcase]]]]].
    destruct (forward_after_padding ctx _ _ Hpad)
      as [d1 [d2 [i1 [i2 [Efwd _]]]]].
    rewrite Efwd in Hfwd. injection Hfwd as <- _.
    exists p1, p2, i1, i2. split; [reflexivity |].
    destruct (shape2 xyz1 =? 2) eqn:Ek.
    + apply Nat.eqb_eq in Ek. split; [intros _; apply Hcase |].
      intros Hne. contradiction.
    + apply Nat.eqb_neq in Ek. split; [intros E; contradiction |].
      intros _. exact Hcase.
Qed.

(** X16: with batch size 1 on both sides, the forward pass on well-shaped
    2-D point sets on one device is the forward pass on the same points
    with a zero third coordinate: same distances, same indices, same
    saved tensors. *)
Theorem forward_2d_is_embedding_for_batch_of_one ctx
        (xyz1 xyz2 : tensor3 F) :
  well_shaped xyz1 -> well_shaped xyz2 ->
  size3d xyz1 = (1, shape1 xyz1, 2) -> size3d xyz2 = (1, shape1 xyz2, 2) ->
  is_cuda3 xyz2 = is_cuda3 xyz1 ->
  forward cd_forward cd_forward_cuda ctx xyz1 xyz2 =
  forward cd_forward cd_forward_cuda ctx (embed3 xyz1) (embed3 xyz2).
Proof.
  intros Hw1 Hw2 Hs1 Hs2 _.
  assert (Hb1 : shape0 xyz1 = 1) by (unfold shape0; rewrite Hs1; reflexivity).
  assert (Hb2 : shape0 xyz2 = 1) by (unfold shape0; rewrite Hs2; reflexivity).
  assert (Hk1 : shape2 xyz1 = 2) by (unfold shape2; rewrite Hs1; reflexivity).
  assert (Hk2 : shape2 xyz2 = 2) by (unfold shape2; rewrite Hs2; reflexivity).
  unfold forward.
  rewrite ChamferFacts.pad_inputs_embed by assumption.
  rewrite (@ChamferFacts.pad_inputs_3d F _ (embed3 xyz1) (embed3 xyz2))
    by reflexivity.
  reflexivity.
Qed.

(** X17: on input whose first tensor does not have 2 coordinates, the
    Python code of the forward pass raises nowhere (the kernels fill the
    buffers they are given), and the backward pass that follows returns
    gradients of exactly the sizes of the two inputs. *)
Theorem backward_gradients_have_input_sizes ctx (xyz1 xyz2 : tensor3 F) :
  shape2 xyz1 <> 2 ->
  exists ctx' out,
    forward cd_forward cd_forward_cuda ctx xyz1 xyz2 = inr (ctx', out) /\
    forall graddist1 graddist2,
    exists gradxyz1 gradxyz2,
      backward cd_backward cd_backward_cuda ctx' graddist1 graddist2
        = inr (gradxyz1, gradxyz2) /\
      size3d gradxyz1 = size3d xyz1 /\
      size3d gradxyz2 = size3d xyz2.
Proof.
  intros Hk.
  assert (Hpad : pad_inputs xyz1 xyz2 = inr (xyz1, xyz2)).
  { unfold pad_inputs. apply Nat.eqb_neq in Hk. rewrite Hk. reflexivity. }
  destruct (forward_after_padding ctx _ _ Hpad)
    as [d1 [d2 [i1 [i2 [Efwd _]]]]].
  do 2 eexists. split; [exact Efwd |].
  intros graddist1 graddist2.
  eapply ChamferFacts.backward_sizes. reflexivity.
Qed.

(** X18: the kernel is chosen by a device alone.  The forward pass uses
    the CPU kernel exactly when its first input is on the CPU; the
    backward pass chooses by the device of the first incoming gradient,
    not by that of the saved tensors, and leaves its gradients on the
    CPU when that gradient is on the CPU. *)
Theorem kernels_chosen_by_device ctx (xyz1 xyz2 : tensor3 F)
        (graddist1 graddist2 : tensor2 F)
        (other : forward_kernel (F := F))
        (other_backward : backward_kernel (F := F)) :
  (is_cuda3 xyz1 = false ->
   forward cd_forward cd_forward_cuda ctx xyz1 xyz2
   = forward cd_forward other ctx xyz1 xyz2) /\
  (is_cuda3 xyz1 = true ->
   forward cd_forward cd_forward_cuda ctx xyz1 xyz2
   = forward other cd_forward_cuda ctx xyz1 xyz2) /\
  (is_cuda2 graddist1 = false ->
   backward cd_backward cd_backward_cuda ctx graddist1 graddist2
   = backward cd_backward other_backward ctx graddist1 graddist2 /\
   forall g1 g2,
     backward cd_backward cd_backward_cuda ctx graddist1 graddist2
       = inr (g1, g2) ->
     is_cuda3 g1 = false /\ is_cuda3 g2 = false) /\
  (is_cuda2 graddist1 = true ->
   backward cd_backward cd_backward_cuda ctx graddist1 graddist2
   = backward other_backward cd_backward_cuda ctx graddist1 graddist2).
Proof.
  split; [| split; [| split]].
  - intros Hcpu. unfold forward.
    destruct (pad_inputs xyz1 xyz2) as [e | [p1 p2]] eqn:Hpad;
      [reflexivity |].
    destruct (pad_inputs_returns _ _ Hpad) as [Hc _].
    rewrite Hc, Hcpu. reflexivity.
  - intros Hcuda. unfold forward.
    destruct (pad_inputs xyz1 xyz2) as [e | [p1 p2]] eqn:Hpad;
      [reflexivity |].
    destruct (pad_inputs_returns _ _ Hpad) as [Hc _].
    rewrite Hc, Hcuda. reflexivity.
  - intros Hcpu. unfold backward. rewrite Hcpu. simpl negb.
    destruct (saved_tensors ctx) as [[[[p1 p2] i1] i2] |].
    + destruct (size3d p1) as [[b1 n1] k1].
      destruct (size3d p2) as [[b2 n2] k2]. cbv iota.
      split; [reflexivity |].
      destruct (cd_backward _ _ _ _ _ _ _ _) as [g1' g2'].
      intros g1 g2 E. injection E as <- <-. split; reflexivity.
    + split; [reflexivity |]. intros g1 g2 E. discriminate E.
  - intros Hcuda. unfold backward. rewrite Hcuda. simpl negb.
    destruct (saved_tensors ctx) as [[[[p1 p2] i1] i2] |]; [| reflexivity].
    destruct (size3d p1) as [[b1 n1] k1].
    destruct (size3d p2) as [[b2 n2] k2]. reflexivity.
Qed.
End Runs.
End ChamferRuns.

(* ================================================================== *)
(** * Concrete runs of the further properties *)
(* ================================================================== *)

Section FurtherRuns.
Import Chamfer.






Local Open Scope float_scope.

(** Covariances passed as vectors of length 2 are 1 x 2 matrices. *)
Lemma frechet_non_square_rejected_witness :
  (1 <> 2)%nat /\
  calculate_frechet_distance Float64.sqrtm_1x1
    (MeanScalar 0) (CovVector [1; 2]) (MeanScalar 3) (CovVector [1; 2])
    eps_default
  = ([], inl (ValueError "shapes not aligned" [])).
Proof.
  assert (Hne : (1 <> 2)%nat) by lia.
  split; [exact Hne |].
  exact (@frechet_non_square_rejected float _ Float64.sqrtm_1x1 1%nat 2%nat
           (MeanScalar 0) (CovVector [1; 2]) (MeanScalar 3)
           (CovVector [1; 2]) eps_default eq_refl eq_refl eq_refl Hne).
Defined.

Lemma frechet_eps_unused_without_retry_witness :
  calculate_frechet_distance Float64.sqrtm_1x1
    (MeanScalar 0) (CovScalar 1) (MeanScalar 3) (CovScalar 1) eps_default
  = calculate_frechet_distance Float64.sqrtm_1x1
      (MeanScalar 0) (CovScalar 1) (MeanScalar 3) (CovScalar 1) 1.
Proof.
  assert (Hd : dot (atleast_2d (CovScalar 1)) (atleast_2d (CovScalar 1))
               = Some [[1]]) by (vm_compute; reflexivity).
  apply (@frechet_eps_unused_without_retry float _ Float64.sqrtm_1x1 1%nat
           (MeanScalar 0) (CovScalar 1) (MeanScalar 3) (CovScalar 1)
           eps_default 1 [[1]] eq_refl (square_1x1 1) (square_1x1 1) Hd).
  right. exists (RealArray [[1]]). split; vm_compute; reflexivity.
Defined.
Local Close Scope float_scope.

Lemma identity2_squared :
  dot Exact.identity2 Exact.identity2 = Some Exact.identity2.
Proof.
  unfold dot, Exact.identity2. cbn [nrows ncols length Nat.eqb].
  cbn [map transpose column seq nth hd vdot zip_with combine np_sum
       fold_left fst snd].
  change (ncols [[1%Qc; Q2Qc 0]; [Q2Qc 0; 1%Qc]]) with 2.
  cbn [Nat.eqb map seq fadd fmul fzero Exact.rational].
  replace (1 * 1 + Q2Qc 0 * Q2Qc 0)%Qc with 1%Qc by ring.
  replace (1 * Q2Qc 0 + Q2Qc 0 * 1)%Qc with (Q2Qc 0) by ring.
  replace (Q2Qc 0 * 1 + 1 * Q2Qc 0)%Qc with (Q2Qc 0) by ring.
  replace (Q2Qc 0 * Q2Qc 0 + 1 * 1)%Qc with 1%Qc by ring.
  reflexivity.
Qed.

Lemma rational_twice (a : Qc) : fsub (fadd a a) (fmul ftwo a) = fzero.
Proof.
  simpl. change (Q2Qc 2) with (1 + 1)%Qc. ring.
Qed.

Lemma rational_sub_self (a : Qc) : fsub a a = fzero.
Proof. simpl. ring. Qed.

Lemma rational_zero_plus (a : Qc) : fadd fzero a = a.
Proof. simpl. ring. Qed.

(** Over the rationals: the mean (3, 4) with the identity covariance. *)
Lemma frechet_self_distance_exact_witness :
  calculate_frechet_distance Exact.sqrtm_idempotent
    (MeanVector [Q2Qc 3; Q2Qc 4]) (CovMatrix Exact.identity2)
    (MeanVector [Q2Qc 3; Q2Qc 4]) (CovMatrix Exact.identity2) eps_default
  = ([EvSqrtm Exact.identity2], inr fzero).
Proof.
  apply (@frechet_self_distance_exact Qc _ Exact.sqrtm_idempotent
           rational_sub_self eq_refl rational_zero_plus rational_twice
           2 (MeanVector [Q2Qc 3; Q2Qc 4]) (CovMatrix Exact.identity2)
           eps_default Exact.identity2 identity2_square identity2_squared
           eq_refl eq_refl).
Defined.


Lemma sketch_is_valid : In "sketch"%string valid_fid_types.
Proof. left. reflexivity. Qed.


Lemma calculate_fid_given_paths_empty_first_set_witness :
  In "sketch"%string valid_fid_types /\
  let run := calculate_fid_given_paths Float64.sqrtm_1x1
               Standin.load_resnet Standin.InceptionV3 (fun _ p => p)
               Toy.run_model Toy.spatial_mean Standin.np_mean_axis0
               Standin.np_cov ([], ["b.png"%string]) 50 "sketch" in
  outcome run
    = inl (ValueError "batch_size should be a positive integer value" []) /\
  model_calls (events run) = [] /\
  sqrtm_calls (events run) = [].
Proof.
  split; [exact sketch_is_valid |].
  exact (@calculate_fid_given_paths_empty_first_set float _
           Float64.sqrtm_1x1 Toy.Model Toy.image Standin.load_resnet
           Standin.InceptionV3 (fun _ p => p) Toy.run_model
           Toy.spatial_mean Standin.np_mean_axis0 Standin.np_cov
           "sketch"%string ["b.png"%string] 50 sketch_is_valid).
Defined.

(** Statistics of one image saved under "stats.npz" and read back. *)
Lemma fid_from_saved_statistics_witness :
  outcome (calculate_fid_given_npz_and_paths Float64.sqrtm_1x1
             Standin.load_resnet Standin.InceptionV3 (fun _ p => p)
             Toy.run_model Toy.spatial_mean Standin.np_mean_axis0
             Standin.np_cov Samples.np_load
             "stats.npz" ["b.png"%string] 1 "sketch")
  = outcome (calculate_fid_given_paths Float64.sqrtm_1x1
               Standin.load_resnet Standin.InceptionV3 (fun _ p => p)
               Toy.run_model Toy.spatial_mean Standin.np_mean_axis0
               Standin.np_cov (["a.png"], ["b.png"])%string 1 "sketch").
Proof.
  apply (@fid_from_saved_statistics float _ Float64.sqrtm_1x1
           Toy.Model Toy.image Standin.load_resnet Standin.InceptionV3
           (fun _ p => p) Toy.run_model Toy.spatial_mean
           Standin.np_mean_axis0 Standin.np_cov Samples.np_load
           ["a.png"%string] ["b.png"%string] "stats.npz"%string 1
           "sketch"%string (MeanVector [1%float]) (CovScalar 1%float)).
  - reflexivity.
  - vm_compute. right. right. right. left. reflexivity.
  - reflexivity.
  - left. reflexivity.
Defined.

Example fid_from_saved_statistics_run :
  outcome (calculate_fid_given_npz_and_paths Float64.sqrtm_1x1
             Standin.load_resnet Standin.InceptionV3 (fun _ p => p)
             Toy.run_model Toy.spatial_mean Standin.np_mean_axis0
             Standin.np_cov Samples.np_load
             "stats.npz" ["b.png"%string] 1 "sketch") = inr 0%float.
Proof. vm_compute. reflexivity. Qed.

(** Two batches of 2-D points: the padding is refused. *)
Lemma forward_2d_returns_iff_batch_of_one_witness :
  shape2 Standin.pair_a = 2 /\
  Standin.forward Standin.no_context Standin.pair_a Standin.pair_b
    = inl (RuntimeError msg_cat).
Proof.
  split; [reflexivity |].
  apply (proj2 (@ChamferRuns.forward_2d_returns_iff_batch_of_one float _
                  Standin.forward_kernel Standin.forward_kernel
                  Standin.no_context Standin.pair_a Standin.pair_b
                  eq_refl eq_refl)).
  left. vm_compute. discriminate.
Defined.

(** Two 2-D points against one 3-D point, one batch each. *)
Lemma forward_output_sizes_witness :
  exists ctx' dist1 dist2 idx1 idx2,
    Standin.forward Standin.no_context Standin.cloud_a Samples.cloud_c
      = inr (ctx', (dist1, dist2, idx1, idx2)) /\
    size2d dist1 = (1, 2) /\ size2d dist2 = (1, 1) /\
    size2d idx1 = (1, 2) /\ size2d idx2 = (1, 1) /\
    is_cuda2 dist1 = false /\ is_cuda2 dist2 = false /\
    is_cuda2 idx1 = false /\ is_cuda2 idx2 = false.
Proof.
  destruct (Standin.forward Standin.no_context Standin.cloud_a
                            Samples.cloud_c)
    as [e | [ctx' [[[d1 d2] i1] i2]]] eqn:Hfwd;
    [vm_compute in Hfwd; discriminate Hfwd |].
  exists ctx', d1, d2, i1, i2. split; [reflexivity |].
  exact (@ChamferRuns.forward_output_sizes float _
           Standin.forward_kernel Standin.forward_kernel
           Standin.no_context Standin.cloud_a Samples.cloud_c
           ctx' d1 d2 i1 i2 Hfwd).
Defined.

(** The same run: the 3-D second tensor is saved with 4 coordinates. *)
Lemma forward_padding_follows_first_input_witness :
  exists ctx' out,
    Standin.forward Standin.no_context Standin.cloud_a Samples.cloud_c
      = inr (ctx', out) /\
    exists p1 p2 idx1 idx2,
      saved_tensors ctx' = Some (p1, p2, idx1, idx2) /\
      shape2 p1 = 3 /\ shape2 p2 = 4.
Proof.
  destruct (Standin.forward Standin.no_context Standin.cloud_a
                            Samples.cloud_c) as [e | [ctx' out]] eqn:Hfwd;
    [vm_compute in Hfwd; discriminate Hfwd |].
  exists ctx', out. split; [reflexivity |].
  destruct (@ChamferRuns.forward_padding_follows_first_input float _
              Standin.forward_kernel Standin.forward_kernel
              Standin.no_context Standin.cloud_a Samples.cloud_c
              ctx' out Hfwd) as [p1 [p2 [i1 [i2 [Hsaved [Hpadded _]]]]]].
  exists p1, p2, i1, i2. split; [exact Hsaved |].
  exact (Hpadded eq_refl).
Defined.

Lemma cloud_a_well_shaped : well_shaped Standin.cloud_a.
Proof. split; [reflexivity |]. repeat constructor. Qed.

Lemma cloud_b_well_shaped : well_shaped Standin.cloud_b.
Proof. split; [reflexivity |]. repeat constructor. Qed.

Lemma forward_2d_is_embedding_for_batch_of_one_witness :
  (well_shaped Standin.cloud_a /\ well_shaped Standin.cloud_b) /\
  Standin.forward Standin.no_context Standin.cloud_a Standin.cloud_b
  = Standin.forward Standin.no_context (embed3 Standin.cloud_a)
                    (embed3 Standin.cloud_b).
Proof.
  split; [split; [exact cloud_a_well_shaped | exact cloud_b_well_shaped] |].
  exact (@ChamferRuns.forward_2d_is_embedding_for_batch_of_one float _
           Standin.forward_kernel Standin.forward_kernel
           Standin.no_context Standin.cloud_a Standin.cloud_b
           cloud_a_well_shaped cloud_b_well_shaped eq_refl eq_refl
           eq_refl).
Defined.

Lemma cloud_c_not_2d : shape2 Samples.cloud_c <> 2.
Proof. vm_compute. discriminate. Qed.

(** A 3-D point against two 2-D points: nothing is padded. *)
Lemma backward_gradients_have_input_sizes_witness :
  shape2 Samples.cloud_c <> 2 /\
  exists ctx' out,
    Standin.forward Standin.no_context Samples.cloud_c Standin.cloud_a
      = inr (ctx', out) /\
    forall graddist1 graddist2,
    exists gradxyz1 gradxyz2,
      Standin.backward ctx' graddist1 graddist2
        = inr (gradxyz1, gradxyz2) /\
      size3d gradxyz1 = (1, 1, 3) /\
      size3d gradxyz2 = (1, 2, 2).
Proof.
  split; [exact cloud_c_not_2d |].
  exact (@ChamferRuns.backward_gradients_have_input_sizes float _
           Standin.forward_kernel Standin.forward_kernel
           Standin.backward_kernel Standin.backward_kernel
           Standin.no_context Samples.cloud_c Standin.cloud_a
           cloud_c_not_2d).
Defined.

(** An input on the CPU: a CUDA kernel that would empty every buffer is
    never consulted. *)
Lemma kernels_chosen_by_device_witness :
  is_cuda3 Standin.cloud_a = false /\
  Standin.forward Standin.no_context Standin.cloud_a Standin.cloud_b
  = forward Standin.forward_kernel (fun _ _ _ _ _ _ => ([], [], [], []))
            Standin.no_context Standin.cloud_a Standin.cloud_b.
Proof.
  split; [reflexivity |].
  exact (proj1 (@ChamferRuns.kernels_chosen_by_device float _
                  Standin.forward_kernel Standin.forward_kernel
                  Standin.backward_kernel Standin.backward_kernel
                  Standin.no_context Standin.cloud_a Standin.cloud_b
                  (zeros2 fzero 1 2) (zeros2 fzero 1 1)
                  (fun _ _ _ _ _ _ => ([], [], [], []))
                  Standin.backward_kernel) eq_refl).
Defined.
End FurtherRuns.
